(** * TuiFileExplorer: directory listing, filtering and bounded search

    A shallow embedding of the navigation core of [script.py]:
    [FileList.load_directory], [FileList.toggle_hidden],
    [FileExplorer.apply_filter], [FileExplorer.on_input_changed],
    [FileExplorer.do_search], [FileExplorer.bfs_search] and the
    [NavigationStack] / [SearchQueue] helpers they rely on.

    The filesystem is the environment of the program.  It is modelled by
    the two probes the code performs on it, [Path.iterdir] and
    [Path.is_dir], each of which may raise an [OSError].  Widgets are
    records, methods are functions from the old widget state to the new
    one. *)

From Stdlib Require Import Ascii Sorting.Sorted Permutation.
From stdpp Require Import base list gmap sets strings sorting.

Local Open Scope string_scope.
Local Open Scope list_scope.

(** ** Python [str] operations used by the program (ASCII range) *)

Module PyStr.

(** [c.lower()] on one character. *)
Definition lower_char (c : ascii) : ascii :=
  let n := nat_of_ascii c in
  if (65 <=? n)%nat && (n <=? 90)%nat then ascii_of_nat (n + 32) else c.

(** [s.lower()] *)
Fixpoint lower (s : string) : string :=
  match s with
  | EmptyString => EmptyString
  | String c s' => String (lower_char c) (lower s')
  end.

(** [s.startswith(p)] *)
Definition startswith (p s : string) : bool := String.prefix p s.

(** [sub in s] *)
Fixpoint contains (sub s : string) : bool :=
  String.prefix sub s ||
  match s with
  | EmptyString => false
  | String _ s' => contains sub s'
  end.

(** [s.rfind(c)], with [None] for Python's [-1]. *)
Fixpoint rfind (c : ascii) (s : string) : option nat :=
  match s with
  | EmptyString => None
  | String a s' =>
      match rfind c s' with
      | Some i => Some (S i)
      | None => if Ascii.eqb a c then Some 0 else None
      end
  end.

(** [s[i:]] *)
Fixpoint drop (i : nat) (s : string) : string :=
  match i, s with
  | 0, _ => s
  | S i', String _ s' => drop i' s'
  | S _, EmptyString => EmptyString
  end.

(** The characters [str.strip()] removes: for ASCII text these are the
    characters for which [str.isspace] holds (TAB, LF, VT, FF, CR, FS, GS,
    RS, US and the space). *)
Definition isspace (c : ascii) : bool :=
  let n := nat_of_ascii c in
  ((9 <=? n)%nat && (n <=? 13)%nat) || ((28 <=? n)%nat && (n <=? 32)%nat).

(** [s.lstrip()] *)
Fixpoint lstrip (s : string) : string :=
  match s with
  | EmptyString => EmptyString
  | String c s' => if isspace c then lstrip s' else s
  end.

(** [s.rstrip()] *)
Fixpoint rstrip (s : string) : string :=
  match s with
  | EmptyString => EmptyString
  | String c s' =>
      match rstrip s' with
      | EmptyString => if isspace c then EmptyString else String c EmptyString
      | r => String c r
      end
  end.

(** [s.strip()] *)
Definition strip (s : string) : string := rstrip (lstrip s).

End PyStr.

(** ** Paths and the filesystem *)

(** A [pathlib.Path] is the sequence of its components; [p / n] appends a
    component and [p.name] is the last one. *)
Definition Path : Type := list string.

Definition joinpath (p : Path) (n : string) : Path := p ++ [n].

Definition name (p : Path) : string := List.last p "".

(** [p.suffix]: the part of the name from its last dot on, provided that dot
    is neither the first nor the last character of the name. *)
Definition suffix (p : Path) : string :=
  let nm := name p in
  match PyStr.rfind "." nm with
  | Some i =>
      if (0 <? i)%nat && (i <? String.length nm - 1)%nat
      then PyStr.drop i nm else ""
  | None => ""
  end.

(** The [OSError] subclasses a directory read or a probe can raise.  The
    handlers of the program, [except (PermissionError, OSError)], catch all
    of them. *)
Inductive OSError : Type :=
  | PermissionError
  | FileNotFoundError
  | NotADirectoryError
  | OtherOSError.

(** The state of the filesystem as the program observes it.
    [fs_listdir p] is the outcome of reading directory [p]: the names of
    its children in the order the operating system yields them, or the
    error raised.  [fs_probe p] is the outcome of [p.is_dir()]: the answer,
    or the error raised ([Path.is_dir] answers [False] for a path that
    does not exist and raises the other errors of [stat], such as
    [PermissionError] for an entry of a directory that may not be
    searched). *)
Record FileSystem : Type := {
  fs_listdir : Path -> OSError + list string;
  fs_probe : Path -> OSError + bool
}.

(** [p.is_dir()] returned [True]: the probe did not raise and said yes. *)
Definition fs_is_dir (fs : FileSystem) (p : Path) : bool :=
  match fs_probe fs p with
  | inr answer => answer
  | inl _ => false
  end.

(** [list(p.iterdir())]: the children of [p] as paths. *)
Definition iterdir (fs : FileSystem) (p : Path) : OSError + list Path :=
  match fs_listdir fs p with
  | inl e => inl e
  | inr names => inr (map (joinpath p) names)
  end.

(** ** Sorting: [items.sort(key=lambda x: (not x.is_dir(), x.name.lower()))] *)

(** The key of [x], where [x.is_dir()] does not raise. *)
Definition sort_key (fs : FileSystem) (x : Path) : bool * string :=
  (negb (fs_is_dir fs x), PyStr.lower (name x)).

(** Python's [<] on [(bool, str)] tuples: the first components decide when
    they differ ([False < True]), otherwise the strings are compared
    lexicographically by code point. *)
Definition key_lt (k1 k2 : bool * string) : bool :=
  if Bool.eqb k1.1 k2.1 then String.ltb k1.2 k2.2
  else negb k1.1.

(** [list.sort] is a stable sort that only uses [<] on the keys.  Its result
    is the unique stable arrangement of the list in key order; here it is
    computed by a stable insertion: an element moves right only past
    elements with a strictly smaller key. *)
Fixpoint insert_by {A : Type} (key : A -> bool * string) (x : A) (l : list A) : list A :=
  match l with
  | [] => [x]
  | y :: l' =>
      if key_lt (key y) (key x) then y :: insert_by key x l'
      else x :: y :: l'
  end.

Fixpoint sort_by {A : Type} (key : A -> bool * string) (l : list A) : list A :=
  match l with
  | [] => []
  | x :: l' => insert_by key x (sort_by key l')
  end.

Definition sort_items (fs : FileSystem) (items : list Path) : list Path :=
  sort_by (sort_key fs) items.

(** [list.sort] computes the keys of all the items, in the order of the
    list, before it compares any: [probe_error] is the first error raised
    by an [is_dir] on the way, if there is one. *)
Fixpoint probe_error (fs : FileSystem) (items : list Path) : option OSError :=
  match items with
  | [] => None
  | x :: items' =>
      match fs_probe fs x with
      | inl e => Some e
      | inr _ => probe_error fs items'
      end
  end.

(** [items.sort(key=lambda x: (not x.is_dir(), x.name.lower()))]: the
    sorted list, or the error a key raised. *)
Definition sort_listing (fs : FileSystem) (items : list Path) : OSError + list Path :=
  match probe_error fs items with
  | Some e => inl e
  | None => inr (sort_items fs items)
  end.

(** ** [class NavigationStack] *)

Module NavigationStack.
Definition t : Type := list Path.
Definition empty : t := [].
(** [self.stack.append(path)]: the top of the stack is the end of the list. *)
Definition push (path : Path) (s : t) : t := s ++ [path].
(** [self.stack.pop() if self.stack else None], with the stack left.  *)
Definition pop (s : t) : option Path * t :=
  match List.rev s with
  | [] => (None, s)
  | top :: below => (Some top, List.rev below)
  end.
Definition is_empty (s : t) : bool :=
  (length s =? 0)%nat.
End NavigationStack.

(** ** [class SearchQueue] *)

Module SearchQueue.
Definition t : Type := list Path.
Definition empty : t := [].
(** [self.queue.append(path)] *)
Definition enqueue (path : Path) (q : t) : t := q ++ [path].
(** [self.queue.popleft() if self.queue else None], with the queue left. *)
Definition dequeue (q : t) : option Path * t :=
  match q with
  | [] => (None, q)
  | front :: rest => (Some front, rest)
  end.
Definition is_empty (q : t) : bool :=
  (length q =? 0)%nat.
End SearchQueue.

(** ** [class FileList] *)

Record FileList : Type := {
  current_path : Path;
  files : list Path;
  selected_idx : nat;
  show_hidden : bool
}.

(** The slice bound of [items[:300]] in [load_directory] and [apply_filter]. *)
Definition listing_cap : nat := 300.

Definition is_hidden (i : Path) : bool := PyStr.startswith "." (name i).

(** [FileList.load_directory(path)].  The [try] covers the read, the
    filter and the sort: an error raised by [iterdir] or by an [is_dir] of
    the sort key ends in the handler, which empties the listing.
    [render_list] only draws [files] and is left out. *)
Definition load_directory (fs : FileSystem) (self : FileList) (path : Path) : FileList :=
  let files' :=
    match iterdir fs path with
    | inr items =>
        let items := if negb (show_hidden self)
                     then filter (fun i => negb (is_hidden i)) items
                     else items in
        match sort_listing fs items with
        | inr items => take listing_cap items
        | inl _ => []
        end
    | inl _ => []
    end in
  {| current_path := path;
     files := files';
     selected_idx := 0;
     show_hidden := show_hidden self |}.

(** [FileList.toggle_hidden()] *)
Definition toggle_hidden (fs : FileSystem) (self : FileList) : FileList :=
  let self := {| current_path := current_path self;
                 files := files self;
                 selected_idx := selected_idx self;
                 show_hidden := negb (show_hidden self) |} in
  load_directory fs self (current_path self).

(** [FileList.get_selected()] *)
Definition get_selected (self : FileList) : option Path :=
  if (selected_idx self <? length (files self))%nat
  then files self !! selected_idx self
  else None.

(** ** [FileExplorer.bfs_search] *)

(** The local variables of [bfs_search].  [dir_reads] is not a variable of
    the program: it counts the calls of [current.iterdir()], so that the
    number of directory reads can be stated. *)
Record SearchState : Type := {
  search_queue : SearchQueue.t;
  results : list Path;
  visited : gset Path;
  dir_reads : nat
}.

(** The body of [for item in current.iterdir()]: the test of the name,
    which may append the item to the results, then [item.is_dir()], which
    may enqueue it or raise.  The state is returned with the error raised,
    if any: what was appended before the error stays appended. *)
Definition scan_item (fs : FileSystem) (query : string)
    (st : SearchState) (item : Path) : SearchState * option OSError :=
  let results' :=
    if PyStr.contains query (PyStr.lower (name item))
    then results st ++ [item] else results st in
  match fs_probe fs item with
  | inr true =>
      ({| search_queue := SearchQueue.enqueue item (search_queue st);
          results := results';
          visited := visited st; dir_reads := dir_reads st |}, None)
  | inr false =>
      ({| search_queue := search_queue st; results := results';
          visited := visited st; dir_reads := dir_reads st |}, None)
  | inl e =>
      ({| search_queue := search_queue st; results := results';
          visited := visited st; dir_reads := dir_reads st |}, Some e)
  end.

(** The [for] loop: an error leaves the loop, and the children that
    follow are not looked at. *)
Fixpoint scan_items (fs : FileSystem) (query : string)
    (st : SearchState) (items : list Path) : SearchState * option OSError :=
  match items with
  | [] => (st, None)
  | item :: items' =>
      match scan_item fs query st item with
      | (st', None) => scan_items fs query st' items'
      | (st', Some e) => (st', Some e)
      end
  end.

(** The [try] block of the loop.  An error of [current.is_dir()], of
    [iterdir] (raised before any child is seen) or of the [is_dir] of a
    child ends in the handler, which goes on with the next queued
    directory ([continue]). *)
Definition expand (fs : FileSystem) (query : string)
    (current : Path) (st : SearchState) : SearchState :=
  match fs_probe fs current with
  | inr true =>
      let st := {| search_queue := search_queue st; results := results st;
                   visited := visited st; dir_reads := S (dir_reads st) |} in
      match iterdir fs current with
      | inr items => fst (scan_items fs query st items)
      | inl _ => st
      end
  | inr false => st
  | inl _ => st
  end.

(** The loop condition, with the queue known to be non-empty. *)
Definition within_limits (max_results max_dirs : nat)
    (res : list Path) (seen : gset Path) : bool :=
  (length res <? max_results)%nat && (size seen <? max_dirs)%nat.

(** The [while] loop.  Each call is one test of the loop condition followed
    by one pass through the body.  A pass that dequeues an already visited
    path ([continue]) shortens the queue; every other pass adds a path to
    [visited], and [fuel] bounds the number of those passes.  [None] means
    the fuel ran out with the loop still running. *)
Fixpoint bfs_while (fs : FileSystem) (query : string)
    (max_results max_dirs : nat) (fuel : nat) {struct fuel}
    : SearchQueue.t -> list Path -> gset Path -> nat -> option SearchState :=
  fix pass (queue : SearchQueue.t) (res : list Path)
      (seen : gset Path) (reads : nat) {struct queue} : option SearchState :=
    let st := {| search_queue := queue; results := res;
                 visited := seen; dir_reads := reads |} in
    match queue with
    | [] => Some st
    | current :: rest =>
        if within_limits max_results max_dirs res seen then
          if decide (current ∈ seen) then pass rest res seen reads
          else
            match fuel with
            | 0 => None
            | S fuel' =>
                let st' := expand fs query current
                  {| search_queue := rest; results := res;
                     visited := {[current]} ∪ seen; dir_reads := reads |} in
                bfs_while fs query max_results max_dirs fuel'
                  (search_queue st') (results st') (visited st') (dir_reads st')
            end
        else Some st
    end.

(** [max_dirs = 300] *)
Definition max_dirs : nat := 300.

(** The default of the parameter [max_results]. *)
Definition default_max_results : nat := 150.

(** The state in which the loop of [bfs_search] stops.  Every pass that
    consumes fuel adds a path to [visited], whose size stays below
    [max_dirs], so [max_dirs] units of fuel are enough
    (lemma [bfs_run_terminates]). *)
Definition bfs_run (fs : FileSystem) (root : Path) (query : string)
    (max_results : nat) : option SearchState :=
  bfs_while fs query max_results max_dirs max_dirs
    (SearchQueue.enqueue root SearchQueue.empty) [] ∅ 0.

(** [bfs_search(root, query, max_results)] *)
Definition bfs_search (fs : FileSystem) (root : Path) (query : string)
    (max_results : nat) : list Path :=
  match bfs_run fs root query max_results with
  | Some st => results st
  | None => []
  end.

(** The same loop, one pass at a time: [loop_condition] is the condition of
    the [while] and [loop_body] its body.  [bfs_while] is related to this
    presentation by lemma [bfs_while_iterates]. *)
Definition loop_condition (max_results max_dirs : nat) (st : SearchState) : bool :=
  negb (SearchQueue.is_empty (search_queue st))
  && (length (results st) <? max_results)%nat
  && (size (visited st) <? max_dirs)%nat.

Definition loop_body (fs : FileSystem) (query : string) (st : SearchState) : SearchState :=
  match SearchQueue.dequeue (search_queue st) with
  | (None, _) => st
  | (Some current, rest) =>
      if decide (current ∈ visited st) then
        {| search_queue := rest; results := results st;
           visited := visited st; dir_reads := dir_reads st |}
      else
        expand fs query current
          {| search_queue := rest; results := results st;
             visited := {[current]} ∪ visited st; dir_reads := dir_reads st |}
  end.

Fixpoint iterate_loop (fs : FileSystem) (query : string)
    (max_results max_dirs : nat) (n : nat) (st : SearchState) : SearchState :=
  match n with
  | 0 => st
  | S n' =>
      if loop_condition max_results max_dirs st
      then iterate_loop fs query max_results max_dirs n' (loop_body fs query st)
      else st
  end.

(** ** [class SearchPanel] *)

(** The panel is modelled by the calls of [show_results] it has received,
    oldest first: each call clears the panel and writes its own results, so
    the panel shows the last call and every call is a publication. *)
Module SearchPanel.
Definition t : Type := list (list Path * string).
Definition empty : t := [].
(** [show_results(results, query)] *)
Definition show_results (results : list Path) (query : string) (self : t) : t :=
  self ++ [(results, query)].
(** The paths written by the last call: [results[:150]]. *)
Definition displayed (self : t) : list Path :=
  match List.rev self with
  | [] => []
  | (results, _) :: _ => take 150 results
  end.
End SearchPanel.

(** ** [class FileExplorer] *)

(** The attributes of the application and the widgets it queries.
    [timers] holds the callbacks scheduled by [set_timer] that have not
    fired yet, oldest first, each with the [event.value] it captured. *)
Record FileExplorer : Type := {
  nav_stack : NavigationStack.t;
  search_active : bool;
  filter_active : bool;
  current_filter : string;
  file_list : FileList;
  search_panel : SearchPanel.t;
  timers : list string
}.

Definition set_file_list (fl : FileList) (self : FileExplorer) : FileExplorer :=
  {| nav_stack := nav_stack self; search_active := search_active self;
     filter_active := filter_active self; current_filter := current_filter self;
     file_list := fl; search_panel := search_panel self; timers := timers self |}.

Definition set_nav_stack (s : NavigationStack.t) (self : FileExplorer) : FileExplorer :=
  {| nav_stack := s; search_active := search_active self;
     filter_active := filter_active self; current_filter := current_filter self;
     file_list := file_list self; search_panel := search_panel self;
     timers := timers self |}.

Definition set_search_panel (p : SearchPanel.t) (self : FileExplorer) : FileExplorer :=
  {| nav_stack := nav_stack self; search_active := search_active self;
     filter_active := filter_active self; current_filter := current_filter self;
     file_list := file_list self; search_panel := p; timers := timers self |}.

Definition set_timers (ts : list string) (self : FileExplorer) : FileExplorer :=
  {| nav_stack := nav_stack self; search_active := search_active self;
     filter_active := filter_active self; current_filter := current_filter self;
     file_list := file_list self; search_panel := search_panel self;
     timers := ts |}.

(** [__init__] and [on_mount] for a process started in directory [cwd]. *)
Definition on_mount (fs : FileSystem) (cwd : Path) : FileExplorer :=
  {| nav_stack := NavigationStack.empty;
     search_active := false; filter_active := false; current_filter := "";
     file_list := load_directory fs
       {| current_path := cwd; files := []; selected_idx := 0;
          show_hidden := false |} cwd;
     search_panel := SearchPanel.empty;
     timers := [] |}.

(** [action_normal_mode] *)
Definition action_normal_mode (fs : FileSystem) (self : FileExplorer) : FileExplorer :=
  {| nav_stack := nav_stack self;
     search_active := false; filter_active := false; current_filter := "";
     file_list := load_directory fs (file_list self) (current_path (file_list self));
     search_panel := search_panel self; timers := timers self |}.

(** [action_search_mode] *)
Definition action_search_mode (self : FileExplorer) : FileExplorer :=
  {| nav_stack := nav_stack self;
     search_active := true; filter_active := false;
     current_filter := current_filter self;
     file_list := file_list self;
     search_panel := search_panel self; timers := timers self |}.

(** [action_filter_mode] *)
Definition action_filter_mode (self : FileExplorer) : FileExplorer :=
  {| nav_stack := nav_stack self;
     search_active := false; filter_active := true;
     current_filter := current_filter self;
     file_list := file_list self;
     search_panel := search_panel self; timers := timers self |}.

(** [action_enter].  The probe [selected.is_dir()] is not in a [try]:
    where it raises, the exception leaves the handler before anything was
    changed, and the state stays as it is. *)
Definition action_enter (fs : FileSystem) (self : FileExplorer) : FileExplorer :=
  if search_active self then self
  else
    match get_selected (file_list self) with
    | Some selected =>
        if fs_is_dir fs selected then
          let self := set_nav_stack
            (NavigationStack.push (current_path (file_list self)) (nav_stack self)) self in
          set_file_list (load_directory fs (file_list self) selected) self
        else self
    | None => self
    end.

(** [action_back] *)
Definition action_back (fs : FileSystem) (self : FileExplorer) : FileExplorer :=
  if search_active self || filter_active self then action_normal_mode fs self
  else if negb (NavigationStack.is_empty (nav_stack self)) then
    match NavigationStack.pop (nav_stack self) with
    | (Some prev_path, stack') =>
        set_file_list (load_directory fs (file_list self) prev_path)
          (set_nav_stack stack' self)
    | (None, _) => self
    end
  else self.

(** [action_toggle_hidden] *)
Definition action_toggle_hidden (fs : FileSystem) (self : FileExplorer) : FileExplorer :=
  if search_active self || filter_active self then self
  else set_file_list (toggle_hidden fs (file_list self)) self.

(** The dictionary [type_filters] of [apply_filter]. *)
Definition type_filters : gmap string (list string) :=
  list_to_map [
    ("img", [".png"; ".jpg"; ".jpeg"; ".gif"; ".bmp"; ".webp"; ".ico"; ".svg"]);
    ("image", [".png"; ".jpg"; ".jpeg"; ".gif"; ".bmp"; ".webp"; ".ico"; ".svg"]);
    ("vid", [".mp4"; ".avi"; ".mkv"; ".mov"; ".wmv"; ".flv"; ".webm"]);
    ("video", [".mp4"; ".avi"; ".mkv"; ".mov"; ".wmv"; ".flv"; ".webm"]);
    ("audio", [".mp3"; ".wav"; ".flac"; ".ogg"; ".m4a"; ".aac"]);
    ("doc", [".pdf"; ".doc"; ".docx"; ".txt"; ".md"]);
    ("code", [".py"; ".js"; ".cpp"; ".c"; ".java"; ".rs"; ".go"; ".rb"; ".php"]);
    ("archive", [".zip"; ".tar"; ".gz"; ".bz2"; ".7z"; ".rar"])
  ].

(** The three list comprehensions of [apply_filter], as the predicate each
    of them keeps. *)
Definition has_extension_in (extensions : list string) (i : Path) : bool :=
  bool_decide (PyStr.lower (suffix i) ∈ extensions).

Definition has_extension (filter_lower : string) (i : Path) : bool :=
  String.eqb (PyStr.lower (suffix i)) filter_lower.

Definition name_contains (filter_lower : string) (i : Path) : bool :=
  PyStr.contains filter_lower (PyStr.lower (name i)).

(** The [if / elif / else] that picks the comprehension. *)
Definition filter_predicate (filter_lower : string) : Path -> bool :=
  match type_filters !! filter_lower with
  | Some extensions => has_extension_in extensions
  | None =>
      if PyStr.startswith "." filter_lower
      then has_extension filter_lower
      else name_contains filter_lower
  end.

(** [apply_filter(filter_text)].  The [try] covers the read, the filter
    and the sort: an error raised by [iterdir] or by an [is_dir] of the
    sort key ends in [except: pass], with the listing as it was. *)
Definition apply_filter (fs : FileSystem) (self : FileExplorer)
    (filter_text : string) : FileExplorer :=
  let fl := file_list self in
  let path := current_path fl in
  let filter_lower := PyStr.strip (PyStr.lower filter_text) in
  if String.eqb filter_lower "" then
    set_file_list (load_directory fs fl path) self
  else
    match iterdir fs path with
    | inr items =>
        let filtered := filter (fun i => filter_predicate filter_lower i) items in
        match sort_listing fs filtered with
        | inr filtered =>
            set_file_list
              {| current_path := current_path fl;
                 files := take listing_cap filtered;
                 selected_idx := 0;
                 show_hidden := show_hidden fl |} self
        | inl _ => self
        end
    | inl _ => self
    end.

(** [do_search(query)] *)
Definition do_search (fs : FileSystem) (self : FileExplorer) (query : string) : FileExplorer :=
  if negb (search_active self) then self
  else
    let results := bfs_search fs (current_path (file_list self))
                     (PyStr.lower query) default_max_results in
    set_search_panel (SearchPanel.show_results results query (search_panel self)) self.

(** [on_input_changed(event)], with [value] for [event.value].
    [set_timer(0.4, lambda: self.do_search(event.value))] adds a pending
    callback; nothing removes or replaces the ones already pending. *)
Definition on_input_changed (fs : FileSystem) (self : FileExplorer)
    (value : string) : FileExplorer :=
  if search_active self && (2 <=? String.length value)%nat then
    set_timers (timers self ++ [value]) self
  else if filter_active self then apply_filter fs self value
  else self.

(** The oldest pending timer fires: its callback runs [do_search] with the
    value it captured.  All timers have the same delay, so they fire in the
    order in which they were set. *)
Definition timer_fires (fs : FileSystem) (self : FileExplorer) : FileExplorer :=
  match timers self with
  | [] => self
  | value :: pending => do_search fs (set_timers pending self) value
  end.

(** What the event loop delivers to the application. *)
Inductive Event : Type :=
  | InputChanged (value : string)
  | TimerElapsed
  | KeyEnter
  | KeyBack
  | KeySearchMode
  | KeyFilterMode
  | KeyEscape
  | KeyToggleHidden.

Definition handle (fs : FileSystem) (self : FileExplorer) (ev : Event) : FileExplorer :=
  match ev with
  | InputChanged value => on_input_changed fs self value
  | TimerElapsed => timer_fires fs self
  | KeyEnter => action_enter fs self
  | KeyBack => action_back fs self
  | KeySearchMode => action_search_mode self
  | KeyFilterMode => action_filter_mode self
  | KeyEscape => action_normal_mode fs self
  | KeyToggleHidden => action_toggle_hidden fs self
  end.

(** The events are handled one after the other, on a single thread. *)
Definition run (fs : FileSystem) (self : FileExplorer) (evs : list Event) : FileExplorer :=
  foldl (handle fs) self evs.

(** ** Concrete filesystems, used to run the program *)

Module Examples.

(** A filesystem given by the table of its directories: a path in the
    table is a directory, with the outcome of reading it; any other path
    is not a directory.  No [is_dir] raises. *)
Fixpoint assoc {V : Type} (p : Path) (table : list (Path * V)) : option V :=
  match table with
  | [] => None
  | (q, v) :: table' => if decide (p = q) then Some v else assoc p table'
  end.

Definition mkfs (table : list (Path * (OSError + list string))) : FileSystem :=
  {| fs_listdir p :=
       match assoc p table with
       | Some outcome => outcome
       | None => inl NotADirectoryError
       end;
     fs_probe p :=
       inr (match assoc p table with Some _ => true | None => false end) |}.

(** The same, except that [is_dir] raises [PermissionError] on the paths
    of [denied]. *)
Definition mkfs_denied (table : list (Path * (OSError + list string)))
    (denied : list Path) : FileSystem :=
  {| fs_listdir := fs_listdir (mkfs table);
     fs_probe p :=
       if bool_decide (p ∈ denied) then inl PermissionError
       else fs_probe (mkfs table) p |}.

(** ["x000"], ["x001"], ["x002"], ...: distinct names, in sort order. *)
Definition digit (d : nat) : ascii := ascii_of_nat (48 + d mod 10).

Definition x_name (i : nat) : string :=
  String "x" (String (digit (i / 100)) (String (digit (i / 10))
    (String (digit i) EmptyString))).

Definition x_names (n : nat) : list string := map x_name (seq 0 n).

Definition root : Path := ["r"].

(** [r/] holds the two files [a1] and [a2]. *)
Definition fs_two_files : FileSystem :=
  mkfs [(root, inr ["a1"; "a2"])].

(** [r/] holds 151 files, whose names all contain ["x"]. *)
Definition fs_151_files : FileSystem :=
  mkfs [(root, inr (x_names 151))].

(** [r/] holds 301 empty directories, whose names all contain ["x"]. *)
Definition dirs_302 : list (Path * (OSError + list string)) :=
  (root, inr (x_names 301))
  :: map (fun n => (joinpath root n, inr [])) (x_names 301).

Definition fs_302_dirs : FileSystem := mkfs dirs_302.

(** [r/] holds 300 files and the hidden file [.h]. *)
Definition fs_300_and_hidden : FileSystem :=
  mkfs [(root, inr (x_names 300 ++ [".h"]))].

(** [r/] holds a hidden file and a text file; in [fs_txt_only] the hidden
    file is gone. *)
Definition fs_env_and_txt : FileSystem :=
  mkfs [(root, inr [".env"; "a.txt"])].

Definition fs_txt_only : FileSystem :=
  mkfs [(root, inr ["a.txt"])].

(** The mixed directory of the category example. *)
Definition fs_mixed : FileSystem :=
  mkfs [(root, inr ["photo.PNG"; "notes.txt"; "clip.mp4"])].

(** A directory with a PDF and a file that has "document" in its name. *)
Definition fs_documents : FileSystem :=
  mkfs [(root, inr ["report.pdf"; "document_list.xyz"])].

(** [r/] holds 301 PNG images. *)
Definition fs_301_images : FileSystem :=
  mkfs [(root, inr (map (fun n => String.app n ".png") (x_names 301)))].

(** [r/] holds the directories [sub] (readable, with one file) and
    [locked] (reading it raises [PermissionError]), and one file. *)
Definition fs_locked : FileSystem :=
  mkfs [(root, inr ["sub"; "locked"; "Readme.md"]);
        (joinpath root "sub", inr ["target.txt"]);
        (joinpath root "locked", inl PermissionError)].

(** The tree of the search example: [r/a/target.txt] and the empty [r/b]. *)
Definition fs_search : FileSystem :=
  mkfs [(root, inr ["a"; "b"]);
        (joinpath root "a", inr ["target.txt"]);
        (joinpath root "b", inr [])].

(** A root whose own name contains the query. *)
Definition fs_root_matches : FileSystem :=
  mkfs [(["target"], inr ["target.txt"; "other"]);
        (["target"; "other"], inr [])].

(** The application in search mode on [fs_search], nothing pending. *)
Definition searching : FileExplorer :=
  action_search_mode (on_mount fs_search root).

(** [r/] holds a text file and the hidden entry [.secret], whose [is_dir]
    raises [PermissionError]: a symbolic link into a directory that may
    not be searched, for one. *)
Definition fs_secret : FileSystem :=
  mkfs_denied [(root, inr ["a.txt"; ".secret"])] [joinpath root ".secret"].

(** [r/] holds the file [t3] and the directory [d]; [d] holds [t1], then
    [x], whose [is_dir] raises [PermissionError], then [t2]. *)
Definition fs_partial : FileSystem :=
  mkfs_denied [(root, inr ["d"; "t3"]);
               (joinpath root "d", inr ["t1"; "x"; "t2"])]
    [joinpath (joinpath root "d") "x"].

End Examples.

(** ** Vocabulary of the statements *)

(** The order in which [list.sort] leaves two keys: [k2 < k1] is false. *)
Definition key_le (k1 k2 : bool * string) : Prop := key_lt k2 k1 = false.

Definition le_by {A : Type} (key : A -> bool * string) (a b : A) : Prop :=
  key_le (key a) (key b).

Definition item_le (fs : FileSystem) : Path -> Path -> Prop :=
  le_by (sort_key fs).

(** Case-insensitive lexicographic order of the names. *)
Definition name_le (a b : Path) : Prop :=
  String.le (PyStr.lower (name a)) (PyStr.lower (name b)).

(** The children of [path] that a listing is made of: all of them, or the
    ones that are not hidden; none when the directory cannot be read. *)
Definition visible_children (fs : FileSystem) (hidden : bool) (path : Path) : list Path :=
  match iterdir fs path with
  | inr items => if hidden then items else filter (fun i => negb (is_hidden i)) items
  | inl _ => []
  end.

(** The children a listing is sorted from: the visible ones, or none when
    an [is_dir] of the sort raises on one of them. *)
Definition listed_children (fs : FileSystem) (hidden : bool) (path : Path) : list Path :=
  match probe_error fs (visible_children fs hidden path) with
  | None => visible_children fs hidden path
  | Some _ => []
  end.

(** [p] lies strictly below [root]. *)
Definition strict_descendant (root p : Path) : Prop :=
  exists rel : list string, rel <> [] /\ p = root ++ rel.

(** [p] is [root] or lies below it. *)
Definition descendant (root p : Path) : Prop :=
  exists rel : list string, p = root ++ rel.

(** The keys of [type_filters]. *)
Definition category_keywords : list string :=
  ["img"; "image"; "vid"; "video"; "audio"; "doc"; "code"; "archive"].

(** ** Selection and the remaining key bindings *)

(** [FileList.move_selection(delta)] *)
Definition move_selection (self : FileList) (delta : Z) : FileList :=
  if bool_decide (files self = []) then self
  else
    {| current_path := current_path self;
       files := files self;
       selected_idx :=
         Z.to_nat (Z.max 0 (Z.min (Z.of_nat (length (files self)) - 1)
                                  (Z.of_nat (selected_idx self) + delta)));
       show_hidden := show_hidden self |}.

Definition set_selected_idx (idx : nat) (self : FileList) : FileList :=
  {| current_path := current_path self; files := files self;
     selected_idx := idx; show_hidden := show_hidden self |}.

(** [action_down], [action_up]; [update_preview] only draws. *)
Definition action_down (self : FileExplorer) : FileExplorer :=
  if search_active self then self
  else set_file_list (move_selection (file_list self) 1) self.

Definition action_up (self : FileExplorer) : FileExplorer :=
  if search_active self then self
  else set_file_list (move_selection (file_list self) (-1)) self.

(** [action_top] *)
Definition action_top (self : FileExplorer) : FileExplorer :=
  if search_active self then self
  else set_file_list (set_selected_idx 0 (file_list self)) self.

(** [action_bottom] *)
Definition action_bottom (self : FileExplorer) : FileExplorer :=
  if search_active self then self
  else if bool_decide (files (file_list self) = []) then self
  else set_file_list
         (set_selected_idx (length (files (file_list self)) - 1) (file_list self))
         self.

(** [action_go_home], with [home] for the answer of [Path.home()]. *)
Definition action_go_home (fs : FileSystem) (home : Path)
    (self : FileExplorer) : FileExplorer :=
  if search_active self || filter_active self then self
  else if bool_decide (current_path (file_list self) <> home) then
    let self := set_nav_stack
      (NavigationStack.push (current_path (file_list self)) (nav_stack self)) self in
    set_file_list (load_directory fs (file_list self) home) self
  else self.

(** Everything the application reacts to: the events above and the
    remaining key bindings. *)
Inductive Command : Type :=
  | OfEvent (ev : Event)
  | KeyDown
  | KeyUp
  | KeyTop
  | KeyBottom
  | KeyHome.

Definition dispatch (fs : FileSystem) (home : Path)
    (self : FileExplorer) (cmd : Command) : FileExplorer :=
  match cmd with
  | OfEvent ev => handle fs self ev
  | KeyDown => action_down self
  | KeyUp => action_up self
  | KeyTop => action_top self
  | KeyBottom => action_bottom self
  | KeyHome => action_go_home fs home self
  end.

Definition run_commands (fs : FileSystem) (home : Path)
    (self : FileExplorer) (cmds : list Command) : FileExplorer :=
  foldl (dispatch fs home) self cmds.

(** ** [class TreeNode] *)

(** Tree nodes are objects that refer to each other: a node is a record in
    a store, and [parent] and [children] hold references into the store. *)
Module TreeNode.

Record t : Type := {
  path : Path;
  parent : option nat;
  children : list nat;
  is_expanded : bool
}.

Definition store : Type := gmap nat t.

(** [TreeNode(path, parent)] allocated at the fresh reference [r]. *)
Definition init (r : nat) (p : Path) (par : option nat) (h : store) : store :=
  <[r := {| path := p; parent := par; children := []; is_expanded := false |}]> h.

Definition append_child (child : nat) (n : t) : t :=
  {| path := path n; parent := parent n;
     children := children n ++ [child]; is_expanded := is_expanded n |}.

Definition set_parent (par : nat) (n : t) : t :=
  {| path := path n; parent := Some par;
     children := children n; is_expanded := is_expanded n |}.

(** [self.add_child(child)]: first [self.children.append(child)], then
    [child.parent = self], on the objects [self] and [child] refer to. *)
Definition add_child (self child : nat) (h : store) : store :=
  alter (set_parent self) child (alter (append_child child) self h).

End TreeNode.

(** ** More vocabulary *)

(** [n] pops in a row: what each returned, and the stack left. *)
Fixpoint pops (n : nat) (s : NavigationStack.t) : list (option Path) * NavigationStack.t :=
  match n with
  | 0 => ([], s)
  | S n' =>
      let '(top, s') := NavigationStack.pop s in
      let '(tops, s'') := pops n' s' in
      (top :: tops, s'')
  end.

(** [n] dequeues in a row. *)
Fixpoint dequeues (n : nat) (q : SearchQueue.t) : list (option Path) * SearchQueue.t :=
  match n with
  | 0 => ([], q)
  | S n' =>
      let '(front, q') := SearchQueue.dequeue q in
      let '(fronts, q'') := dequeues n' q' in
      (front :: fronts, q'')
  end.

(** The children the search sees when it expands [current]: none when
    [current] is not a directory or cannot be read. *)
Definition expanded_items (fs : FileSystem) (current : Path) : list Path :=
  if fs_is_dir fs current then
    match iterdir fs current with
    | inr items => items
    | inl _ => []
    end
  else [].

(** The test of the search on one path. *)
Definition matches (query : string) (item : Path) : bool :=
  PyStr.contains query (PyStr.lower (name item)).

(** The children the [for] loop gets to, for the listing [items]: all of
    them up to the first whose [is_dir] raises, that one included (its name
    is tested before the probe). *)
Fixpoint scanned (fs : FileSystem) (items : list Path) : list Path :=
  match items with
  | [] => []
  | item :: items' =>
      match fs_probe fs item with
      | inl _ => [item]
      | inr _ => item :: scanned fs items'
      end
  end.

(** The children the [for] loop enqueues: the directories before the first
    child whose [is_dir] raises. *)
Fixpoint enqueued (fs : FileSystem) (items : list Path) : list Path :=
  match items with
  | [] => []
  | item :: items' =>
      match fs_probe fs item with
      | inl _ => []
      | inr true => item :: enqueued fs items'
      | inr false => enqueued fs items'
      end
  end.

(** The same for the directory [current]: nothing when it is not a
    directory or cannot be read. *)
Definition scanned_items (fs : FileSystem) (current : Path) : list Path :=
  scanned fs (expanded_items fs current).

Definition enqueued_items (fs : FileSystem) (current : Path) : list Path :=
  enqueued fs (expanded_items fs current).

(** The paths a search from [root] can come to expand: the root, and the
    children enqueued from the paths among them. *)
Inductive search_reaches (fs : FileSystem) (root : Path) : Path -> Prop :=
  | reaches_root : search_reaches fs root root
  | reaches_child (d c : Path) :
      search_reaches fs root d ->
      c ∈ enqueued_items fs d ->
      search_reaches fs root c.

(** [a] is not deeper in the tree than [b]. *)
Definition depth_le (a b : Path) : Prop := length a <= length b.

(** [item] is listed in directory [d]. *)
Definition child_of (fs : FileSystem) (d item : Path) : Prop :=
  exists (names : list string) (n : string),
    fs_listdir fs d = inr names /\ n ∈ names /\ item = joinpath d n.

(** Every node listed among the children of a node has that node as its
    parent. *)
Definition well_linked (h : TreeNode.store) : Prop :=
  forall (p c : nat) (np : TreeNode.t),
    h !! p = Some np -> c ∈ TreeNode.children np ->
    exists nc : TreeNode.t, h !! c = Some nc /\ TreeNode.parent nc = Some p.

(** What happened to the history in one step. *)
Inductive history_step (before : FileExplorer) (after : FileExplorer) : Prop :=
  | history_kept :
      nav_stack after = nav_stack before ->
      current_path (file_list after) = current_path (file_list before) ->
      history_step before after
  | history_pushed :
      nav_stack after =
        NavigationStack.push (current_path (file_list before)) (nav_stack before) ->
      history_step before after
  | history_popped :
      nav_stack before =
        NavigationStack.push (current_path (file_list after)) (nav_stack after) ->
      history_step before after.

(** The shape of the queue and the results of a breadth-first search:
    both are in order of depth, the queue spans at most two levels, and no
    result lies more than one level below a queued path. *)
Definition breadth_first (queue res : list Path) : Prop :=
  StronglySorted depth_le queue
  /\ StronglySorted depth_le res
  /\ (forall q q', q ∈ queue -> q' ∈ queue -> length q' <= S (length q))
  /\ (forall r q, r ∈ res -> q ∈ queue -> length r <= S (length q)).

(** Nothing is left to do for the visited paths: the root is visited or
    queued, and of every visited path the matching children the scan gets
    to are among the results and the children it enqueues are visited or
    queued. *)
Definition search_closed (fs : FileSystem) (root : Path) (query : string)
    (queue res : list Path) (seen : gset Path) : Prop :=
  (root ∈ seen \/ root ∈ queue)
  /\ forall d : Path, d ∈ seen ->
       (forall item, item ∈ scanned_items fs d ->
          matches query item = true -> item ∈ res)
       /\ (forall c, c ∈ enqueued_items fs d -> c ∈ seen \/ c ∈ queue).

(** The results are distinct children of visited paths. *)
Definition results_distinct (res : list Path) (seen : gset Path) : Prop :=
  NoDup res
  /\ forall r, r ∈ res -> exists (d : Path) (n : string), d ∈ seen /\ r = joinpath d n.

(** * Properties *)

(** ** The sort order *)

Section SortOrder.

Lemma ltb_negb_leb (s1 s2 : string) :
  String.ltb s1 s2 = negb (String.leb s2 s1).
Proof.
  unfold String.ltb, String.leb.
  rewrite (String.compare_antisym s1 s2).
  destruct (String.compare s2 s1); reflexivity.
Qed.

Lemma key_le_spec (b1 b2 : bool) (s1 s2 : string) :
  key_le (b1, s1) (b2, s2) <->
  (b1 = b2 /\ String.le s1 s2) \/ (b1 = false /\ b2 = true).
Proof.
  unfold key_le, key_lt, String.le; simpl.
  rewrite ltb_negb_leb.
  destruct b1, b2; simpl; rewrite ?negb_false_iff, ?Is_true_true;
    intuition congruence.
Qed.

Lemma key_le_refl (k : bool * string) : key_le k k.
Proof.
  destruct k as [b s]. apply key_le_spec. left. split; [done|].
  reflexivity.
Qed.

Lemma key_le_trans (k1 k2 k3 : bool * string) :
  key_le k1 k2 -> key_le k2 k3 -> key_le k1 k3.
Proof.
  destruct k1 as [b1 s1], k2 as [b2 s2], k3 as [b3 s3].
  rewrite !key_le_spec.
  intros [[-> H12]|[-> ->]] [[<- H23]|[? ->]]; try discriminate; auto.
  left. split; [done|]. by etrans.
Qed.

Lemma key_le_total (k1 k2 : bool * string) : key_le k1 k2 \/ key_le k2 k1.
Proof.
  destruct k1 as [b1 s1], k2 as [b2 s2].
  rewrite !key_le_spec.
  destruct (total String.le s1 s2); destruct b1, b2; auto.
Qed.

(** [k1 < k2] implies [k1 <= k2]. *)
Lemma key_lt_le (k1 k2 : bool * string) : key_lt k1 k2 = true -> key_le k1 k2.
Proof.
  intros Hlt. destruct (key_le_total k1 k2) as [|Hle]; [done|].
  unfold key_le in Hle. congruence.
Qed.

#[global] Instance le_by_trans {A : Type} (key : A -> bool * string) :
  Transitive (le_by key).
Proof. intros a b c. apply key_le_trans. Qed.

End SortOrder.

(** ** The stable sort *)

Section StableSort.
Context {A : Type} (key : A -> bool * string).

Lemma insert_by_perm (x : A) (l : list A) : insert_by key x l ≡ₚ x :: l.
Proof.
  induction l as [|y l IH]; simpl; [done|].
  destruct (key_lt (key y) (key x)); [|done].
  rewrite IH. apply perm_swap.
Qed.

Lemma sort_by_perm (l : list A) : sort_by key l ≡ₚ l.
Proof.
  induction l as [|x l IH]; simpl; [done|].
  by rewrite insert_by_perm, IH.
Qed.

Lemma sort_by_length (l : list A) : length (sort_by key l) = length l.
Proof. apply Permutation_length, sort_by_perm. Qed.

Lemma insert_by_sorted (x : A) (l : list A) :
  StronglySorted (le_by key) l -> StronglySorted (le_by key) (insert_by key x l).
Proof.
  induction 1 as [|y l Hs IH Hy]; simpl.
  - repeat constructor.
  - destruct (key_lt (key y) (key x)) eqn:Hlt.
    + constructor; [done|].
      rewrite insert_by_perm. constructor; [|done].
      by apply key_lt_le.
    + assert (le_by key x y) as Hxy by exact Hlt.
      constructor; [by constructor|].
      constructor; [done|].
      eapply Forall_impl; [exact Hy|].
      intros z Hz. by trans y.
Qed.

Lemma sort_by_sorted (l : list A) : StronglySorted (le_by key) (sort_by key l).
Proof.
  induction l as [|x l IH]; simpl; [constructor|].
  by apply insert_by_sorted.
Qed.

(** An element that is not above the head of the list stays in front. *)
Lemma insert_by_front (x : A) (l : list A) :
  Forall (le_by key x) l -> insert_by key x l = x :: l.
Proof.
  destruct 1 as [|y l Hxy _]; simpl; [done|].
  unfold le_by, key_le in Hxy. by rewrite Hxy.
Qed.

(** Stability: sorting and filtering commute. *)
Lemma filter_insert_by (P : A -> Prop) `{!forall x, Decision (P x)}
    (x : A) (l : list A) :
  StronglySorted (le_by key) l ->
  filter P (insert_by key x l) =
  if decide (P x) then insert_by key x (filter P l) else filter P l.
Proof.
  induction 1 as [|y l Hs IH Hy]; simpl.
  - rewrite filter_cons, filter_nil. by destruct (decide (P x)).
  - destruct (key_lt (key y) (key x)) eqn:Hlt.
    + rewrite !filter_cons, IH.
      destruct (decide (P y)), (decide (P x)); simpl; try done.
      by rewrite Hlt.
    + assert (le_by key x y) as Hxy by exact Hlt.
      rewrite (filter_cons P x).
      destruct (decide (P x)); [|done].
      symmetry. apply insert_by_front.
      apply Forall_forall. intros z Hz.
      apply list_elem_of_filter in Hz as [_ Hz].
      apply elem_of_cons in Hz as [->|Hz]; [done|].
      etrans; [exact Hxy|].
      by apply (proj1 (Forall_forall _ _) Hy).
Qed.

Lemma filter_sort_by (P : A -> Prop) `{!forall x, Decision (P x)} (l : list A) :
  filter P (sort_by key l) = sort_by key (filter P l).
Proof.
  induction l as [|x l IH]; simpl; [done|].
  rewrite filter_insert_by by apply sort_by_sorted.
  rewrite filter_cons, IH.
  by destruct (decide (P x)).
Qed.

Lemma StronglySorted_take (R : relation A) (n : nat) (l : list A) :
  StronglySorted R l -> StronglySorted R (take n l).
Proof.
  intros Hs. rewrite <- (take_drop n l) in Hs.
  by apply StronglySorted_app_1_l in Hs.
Qed.

Lemma StronglySorted_filter (R : relation A) (P : A -> Prop)
    `{!forall x, Decision (P x)} (l : list A) :
  StronglySorted R l -> StronglySorted R (filter P l).
Proof.
  induction 1 as [|y l Hs IH Hy]; [constructor|].
  rewrite filter_cons. destruct (decide (P y)); [|done].
  constructor; [done|].
  apply Forall_forall. intros z Hz.
  apply list_elem_of_filter in Hz as [_ Hz].
  by apply (proj1 (Forall_forall _ _) Hy).
Qed.

(** On a list whose elements all satisfy [Q], a relation may be replaced
    by one that agrees with it on [Q]. *)
Lemma StronglySorted_restrict (R R' : relation A) (Q : A -> Prop) (l : list A) :
  (forall a b, Q a -> Q b -> R a b -> R' a b) ->
  Forall Q l -> StronglySorted R l -> StronglySorted R' l.
Proof.
  intros HR HQ. induction 1 as [|y l Hs IH Hy]; [constructor|].
  apply Forall_cons in HQ as [Hqy HQ].
  constructor; [by apply IH|].
  apply Forall_forall. intros z Hz.
  apply HR; [done| |].
  - by apply (proj1 (Forall_forall _ _) HQ).
  - by apply (proj1 (Forall_forall _ _) Hy).
Qed.

End StableSort.

(** ** Directory listings *)

Section Listing.
Variable fs : FileSystem.

(** What [load_directory] stores in [files]. *)
Lemma load_directory_files (self : FileList) (path : Path) :
  files (load_directory fs self path) =
  take listing_cap (sort_items fs (listed_children fs (show_hidden self) path)).
Proof.
  unfold load_directory, listed_children, visible_children, sort_listing; simpl.
  destruct (iterdir fs path) as [e|items]; [done|].
  destruct (show_hidden self); simpl; by destruct (probe_error fs _).
Qed.

Lemma listed_children_cases (hidden : bool) (path : Path) :
  (probe_error fs (visible_children fs hidden path) = None
   /\ listed_children fs hidden path = visible_children fs hidden path)
  \/ ((exists e, probe_error fs (visible_children fs hidden path) = Some e)
      /\ listed_children fs hidden path = []).
Proof.
  unfold listed_children.
  destruct (probe_error fs _) as [e|]; [right|left]; eauto.
Qed.

(** An [is_dir] of the sort raises: the listing is empty. *)
Lemma load_directory_probe_error (self : FileList) (path : Path) (e : OSError) :
  probe_error fs (visible_children fs (show_hidden self) path) = Some e ->
  files (load_directory fs self path) = [].
Proof.
  intros He. rewrite load_directory_files. unfold listed_children.
  by rewrite He.
Qed.

(** In key order the directories come first. *)
Lemma sorted_dirs_first (l : list Path) :
  StronglySorted (item_le fs) l ->
  l = filter (fun x => fs_is_dir fs x = true) l
      ++ filter (fun x => fs_is_dir fs x = false) l.
Proof.
  induction 1 as [|y l Hs IH Hy]; [done|].
  rewrite !filter_cons.
  destruct (fs_is_dir fs y) eqn:Hdir; simpl.
  - by rewrite <- IH.
  - assert (Forall (fun x => fs_is_dir fs x = false) l) as Hfiles.
    { eapply Forall_impl; [exact Hy|]. intros z Hz.
      unfold item_le, le_by, sort_key in Hz. rewrite Hdir in Hz.
      apply key_le_spec in Hz as [[Hz _]|[Hz _]]; [|done].
      simpl in Hz. by destruct (fs_is_dir fs z). }
    clear -Hfiles.
    assert (filter (fun x => fs_is_dir fs x = true) l = []
            /\ filter (fun x => fs_is_dir fs x = false) l = l) as [-> ->]; [|done].
    induction Hfiles as [|z l Hz _ [IH1 IH2]]; [done|].
    rewrite !filter_cons, IH1, IH2, Hz.
    split; [by destruct (decide (false = true))|].
    by destruct (decide (false = false)).
Qed.

(** Among entries of the same kind the key order is the order of the
    lowercased names. *)
Lemma item_le_same_kind (a b : Path) :
  fs_is_dir fs a = fs_is_dir fs b -> item_le fs a b -> name_le a b.
Proof.
  unfold item_le, le_by, sort_key, name_le. intros -> H.
  apply key_le_spec in H as [[_ H]|[H1 H2]]; [done|].
  by destruct (fs_is_dir fs b).
Qed.

Lemma same_kind_sorted (d : bool) (l : list Path) :
  StronglySorted (item_le fs) l ->
  StronglySorted name_le (filter (fun x => fs_is_dir fs x = d) l).
Proof.
  intros Hs.
  apply (StronglySorted_restrict (item_le fs) name_le (fun x => fs_is_dir fs x = d)).
  - intros a b Ha Hb. apply item_le_same_kind. congruence.
  - apply Forall_forall. by intros x [Hx _]%list_elem_of_filter.
  - by apply StronglySorted_filter.
Qed.

Lemma load_directory_sorted (self : FileList) (path : Path) :
  StronglySorted (item_le fs) (files (load_directory fs self path)).
Proof.
  rewrite load_directory_files.
  apply StronglySorted_take, sort_by_sorted.
Qed.

(** C4. In every listing made by [load_directory] all directories precede
    all files, and each of the two groups is in case-insensitive
    lexicographic order of the names. *)
Theorem load_directory_dirs_first (self : FileList) (path : Path) :
  exists dirs others : list Path,
    files (load_directory fs self path) = dirs ++ others
    /\ Forall (fun x => fs_is_dir fs x = true) dirs
    /\ Forall (fun x => fs_is_dir fs x = false) others
    /\ StronglySorted name_le dirs
    /\ StronglySorted name_le others.
Proof.
  pose proof (load_directory_sorted self path) as Hs.
  exists (filter (fun x => fs_is_dir fs x = true) (files (load_directory fs self path))),
         (filter (fun x => fs_is_dir fs x = false) (files (load_directory fs self path))).
  split; [by apply sorted_dirs_first|].
  split; [apply Forall_forall; by intros x [Hx _]%list_elem_of_filter|].
  split; [apply Forall_forall; by intros x [Hx _]%list_elem_of_filter|].
  split; by apply same_kind_sorted.
Qed.

(** C5, as the code has it.  A listing has at most 300 entries.  Where
    the sort goes through (no [is_dir] raises on a visible child) they are
    the first 300 of the sorted sequence of the visible children: together
    with the entries left out they are that sequence, and entries are left
    out only when 300 are kept.  Where an [is_dir] of the sort raises
    there is no sorted sequence and the listing is empty. *)
Theorem load_directory_keeps_first (self : FileList) (path : Path) :
  length (files (load_directory fs self path)) <= listing_cap
  /\ match probe_error fs (visible_children fs (show_hidden self) path) with
     | Some _ => files (load_directory fs self path) = []
     | None =>
         exists dropped : list Path,
           files (load_directory fs self path) ++ dropped
             = sort_items fs (visible_children fs (show_hidden self) path)
           /\ files (load_directory fs self path) ++ dropped
                ≡ₚ visible_children fs (show_hidden self) path
           /\ StronglySorted (item_le fs)
                (files (load_directory fs self path) ++ dropped)
           /\ (dropped = []
               \/ length (files (load_directory fs self path)) = listing_cap)
     end.
Proof.
  split; [rewrite load_directory_files, length_take; lia|].
  destruct (probe_error fs _) as [e|] eqn:Hprobe.
  { by apply load_directory_probe_error with e. }
  rewrite load_directory_files. unfold listed_children. rewrite Hprobe.
  set (all := sort_items fs (visible_children fs (show_hidden self) path)).
  exists (drop listing_cap all).
  rewrite take_drop.
  split; [done|].
  split; [apply sort_by_perm|].
  split; [apply sort_by_sorted|].
  destruct (decide (length all <= listing_cap)) as [Hle|Hgt].
  - left. by apply drop_ge.
  - right. rewrite length_take. lia.
Qed.

Lemma iterdir_error (path : Path) (e : OSError) :
  fs_listdir fs path = inl e -> iterdir fs path = inl e.
Proof. unfold iterdir. by intros ->. Qed.

Lemma load_directory_error (self : FileList) (path : Path) (e : OSError) :
  fs_listdir fs path = inl e ->
  load_directory fs self path =
  {| current_path := path; files := []; selected_idx := 0;
     show_hidden := show_hidden self |}.
Proof.
  intros He. unfold load_directory. by rewrite (iterdir_error _ _ He).
Qed.

(** The listing depends on the widget only through [show_hidden]. *)
Lemma load_directory_ext (self self' : FileList) (path : Path) :
  show_hidden self = show_hidden self' ->
  load_directory fs self path = load_directory fs self' path.
Proof. unfold load_directory. by intros ->. Qed.

Lemma pop_push (path : Path) (s : NavigationStack.t) :
  NavigationStack.pop (NavigationStack.push path s) = (Some path, s).
Proof.
  unfold NavigationStack.pop, NavigationStack.push.
  rewrite rev_app_distr; simpl. by rewrite rev_involutive.
Qed.

Lemma push_not_empty (path : Path) (s : NavigationStack.t) :
  NavigationStack.is_empty (NavigationStack.push path s) = false.
Proof.
  unfold NavigationStack.is_empty, NavigationStack.push.
  rewrite length_app; simpl. apply Nat.eqb_neq. lia.
Qed.

(** C6. When the directory cannot be read, [load_directory] returns
    normally with an empty listing.  Entering such a directory records
    the directory left on the history as usual, and going back from it
    restores the previous directory and the history. *)
Theorem load_directory_read_error (self : FileExplorer) (d : Path) (e : OSError) :
  fs_listdir fs d = inl e ->
  search_active self = false ->
  filter_active self = false ->
  get_selected (file_list self) = Some d ->
  fs_is_dir fs d = true ->
  load_directory fs (file_list self) d =
    {| current_path := d; files := []; selected_idx := 0;
       show_hidden := show_hidden (file_list self) |}
  /\ file_list (action_enter fs self) = load_directory fs (file_list self) d
  /\ nav_stack (action_enter fs self) =
       NavigationStack.push (current_path (file_list self)) (nav_stack self)
  /\ action_back fs (action_enter fs self) =
       set_file_list
         (load_directory fs (file_list self) (current_path (file_list self))) self.
Proof.
  intros He Hs Hf Hsel Hdir.
  split; [by apply load_directory_error with e|].
  unfold action_enter. rewrite Hs, Hsel, Hdir. simpl.
  split; [done|]. split; [done|].
  unfold action_back; simpl. rewrite Hs, Hf; simpl.
  rewrite push_not_empty, pop_push; simpl.
  destruct self; simpl in *. unfold set_file_list, set_nav_stack; simpl.
  f_equal.
Qed.

End Listing.

(** ** Showing and hiding hidden entries *)

Section Hidden.
Variable fs : FileSystem.

Lemma take_prefix_S {A : Type} (n : nat) (l : list A) :
  take n l `prefix_of` take (S n) l.
Proof.
  revert n. induction l as [|x l IH]; intros [|n]; simpl;
    auto using prefix_nil, prefix_cons.
Qed.

(** Filtering a truncated list gives a prefix of the truncated filtered
    list. *)
Lemma filter_take_prefix {A : Type} (P : A -> Prop)
    `{!forall x, Decision (P x)} (n : nat) (l : list A) :
  filter P (take n l) `prefix_of` take n (filter P l).
Proof.
  revert n. induction l as [|x l IH]; intros [|n]; simpl;
    try apply prefix_nil.
  rewrite !filter_cons. destruct (decide (P x)); simpl.
  - apply prefix_cons, IH.
  - etrans; [apply IH|]. apply take_prefix_S.
Qed.

Lemma probe_error_filter (P : Path -> Prop) `{!forall x, Decision (P x)}
    (l : list Path) :
  probe_error fs l = None -> probe_error fs (filter P l) = None.
Proof.
  induction l as [|x l IH]; [done|]. simpl.
  destruct (fs_probe fs x) as [e|b] eqn:Hx; [done|]. intros Hl.
  rewrite filter_cons. destruct (decide (P x)); [|by apply IH].
  simpl. rewrite Hx. by apply IH.
Qed.

Lemma visible_children_off (path : Path) :
  visible_children fs false path
  = filter (fun i => negb (is_hidden i)) (visible_children fs true path).
Proof. unfold visible_children. by destruct (iterdir fs path). Qed.

Lemma listing_hidden_off (self : FileList) (path : Path) :
  show_hidden self = false ->
  probe_error fs (visible_children fs true path) = None ->
  files (load_directory fs self path) =
  take listing_cap
    (filter (fun i => negb (is_hidden i))
       (sort_items fs (visible_children fs true path))).
Proof.
  intros Hoff Hprobe. rewrite load_directory_files, Hoff.
  unfold listed_children. rewrite visible_children_off.
  rewrite probe_error_filter by done.
  unfold sort_items. by rewrite filter_sort_by.
Qed.

Lemma listing_hidden_on (self : FileList) :
  show_hidden self = false ->
  files (toggle_hidden fs self) =
  take listing_cap (sort_items fs (listed_children fs true (current_path self))).
Proof.
  intros Hoff. unfold toggle_hidden.
  rewrite load_directory_files; simpl. by rewrite Hoff.
Qed.

(** C9, as the code has it.  With hidden entries switched on, the
    entries of the listing that are not hidden form a prefix of the
    listing made without hidden entries.  When the directory has at most
    300 children and no [is_dir] raises on one of them, nothing is cut off
    or emptied: the two are equal, and the listing with hidden entries
    consists of the other listing and the hidden children. *)
Theorem toggle_hidden_adds_hidden (self : FileList) :
  show_hidden self = false ->
  filter (fun i => negb (is_hidden i)) (files (toggle_hidden fs self))
    `prefix_of` files (load_directory fs self (current_path self))
  /\ (probe_error fs (visible_children fs true (current_path self)) = None ->
      length (visible_children fs true (current_path self)) <= listing_cap ->
      filter (fun i => negb (is_hidden i)) (files (toggle_hidden fs self))
        = files (load_directory fs self (current_path self))
      /\ files (toggle_hidden fs self)
           ≡ₚ files (load_directory fs self (current_path self))
              ++ filter (fun i => is_hidden i)
                   (visible_children fs true (current_path self))).
Proof.
  intros Hoff.
  rewrite (listing_hidden_on self Hoff). unfold listed_children.
  set (all := visible_children fs true (current_path self)).
  destruct (probe_error fs all) as [e|] eqn:Hprobe.
  { split; [|done]. simpl. rewrite filter_nil. apply prefix_nil. }
  rewrite (listing_hidden_off self _ Hoff Hprobe). fold all.
  split; [apply filter_take_prefix|].
  intros _ Hlen.
  assert (length (sort_items fs all) <= listing_cap) as Hlen'.
  { unfold sort_items. by rewrite sort_by_length. }
  rewrite (take_ge (sort_items fs all)) by done.
  rewrite take_ge.
  2:{ etrans; [apply length_filter|done]. }
  split; [done|].
  unfold sort_items. rewrite filter_sort_by, !sort_by_perm.
  rewrite <- (filter_app_complement (fun i => negb (is_hidden i)) all) at 1.
  apply Permutation_app_head.
  erewrite list_filter_iff; [done|].
  intros x. simpl. destruct (is_hidden x); simpl; intuition.
Qed.

End Hidden.

(** ** Filtering *)

Section Filtering.
Variable fs : FileSystem.

(** The listing [apply_filter] installs when the filter text is not
    blank, the directory can be read and no [is_dir] of the sort raises. *)
Lemma apply_filter_files (self : FileExplorer) (filter_text : string)
    (items : list Path) :
  PyStr.strip (PyStr.lower filter_text) <> "" ->
  iterdir fs (current_path (file_list self)) = inr items ->
  probe_error fs
    (filter (fun i => filter_predicate (PyStr.strip (PyStr.lower filter_text)) i)
       items) = None ->
  files (file_list (apply_filter fs self filter_text)) =
  take listing_cap
    (filter (fun i => filter_predicate (PyStr.strip (PyStr.lower filter_text)) i)
       (sort_items fs items)).
Proof.
  intros Hne Hread Hprobe. unfold apply_filter, sort_listing.
  destruct (String.eqb_spec (PyStr.strip (PyStr.lower filter_text)) "");
    [done|].
  rewrite Hread; simpl. rewrite Hprobe; simpl.
  unfold sort_items. by rewrite filter_sort_by.
Qed.

Lemma apply_filter_error (self : FileExplorer) (filter_text : string)
    (e : OSError) :
  PyStr.strip (PyStr.lower filter_text) <> "" ->
  iterdir fs (current_path (file_list self)) = inl e ->
  apply_filter fs self filter_text = self.
Proof.
  intros Hne Hread. unfold apply_filter.
  destruct (String.eqb_spec (PyStr.strip (PyStr.lower filter_text)) "");
    [done|].
  by rewrite Hread.
Qed.

Lemma apply_filter_probe_error (self : FileExplorer) (filter_text : string)
    (items : list Path) (e : OSError) :
  PyStr.strip (PyStr.lower filter_text) <> "" ->
  iterdir fs (current_path (file_list self)) = inr items ->
  probe_error fs
    (filter (fun i => filter_predicate (PyStr.strip (PyStr.lower filter_text)) i)
       items) = Some e ->
  apply_filter fs self filter_text = self.
Proof.
  intros Hne Hread Hprobe. unfold apply_filter, sort_listing.
  destruct (String.eqb_spec (PyStr.strip (PyStr.lower filter_text)) "");
    [done|].
  rewrite Hread; simpl. by rewrite Hprobe.
Qed.

Lemma apply_filter_blank (self : FileExplorer) (filter_text : string) :
  PyStr.strip (PyStr.lower filter_text) = "" ->
  apply_filter fs self filter_text =
  set_file_list
    (load_directory fs (file_list self) (current_path (file_list self))) self.
Proof. intros Hblank. unfold apply_filter. by rewrite Hblank. Qed.

(** C3, as the code has it.  [apply_filter] does not work on the listing
    on display: it reads the current directory again.  For a filter text
    that is not blank, when the read succeeds and no [is_dir] of the sort
    raises on a child that passes the filter, the new listing is an
    order-preserving subsequence of the sorted sequence of all children
    just read, hidden ones included, cut to 300 entries, all of which
    pass the filter; when the read or such an [is_dir] fails, nothing
    changes, and the listing on display stays.  A blank filter text
    reloads the directory with [load_directory]. *)
Theorem apply_filter_reads_directory (self : FileExplorer) (filter_text : string) :
  let filter_lower := PyStr.strip (PyStr.lower filter_text) in
  if String.eqb filter_lower "" then
    apply_filter fs self filter_text =
    set_file_list
      (load_directory fs (file_list self) (current_path (file_list self))) self
  else
    match iterdir fs (current_path (file_list self)) with
    | inr items =>
        match probe_error fs
                (filter (fun i => filter_predicate filter_lower i) items) with
        | None =>
            files (file_list (apply_filter fs self filter_text))
              `sublist_of` sort_items fs items
            /\ Forall (fun i => filter_predicate filter_lower i = true)
                 (files (file_list (apply_filter fs self filter_text)))
            /\ length (files (file_list (apply_filter fs self filter_text)))
                 <= listing_cap
        | Some _ => apply_filter fs self filter_text = self
        end
    | inl _ => apply_filter fs self filter_text = self
    end.
Proof.
  intros filter_lower.
  destruct (String.eqb_spec filter_lower "") as [Hblank|Hne].
  { by apply apply_filter_blank. }
  destruct (iterdir fs (current_path (file_list self))) as [e|items] eqn:Hread.
  { by apply apply_filter_error with e. }
  destruct (probe_error fs _) as [e|] eqn:Hprobe.
  { by apply apply_filter_probe_error with items e. }
  rewrite (apply_filter_files self filter_text items Hne Hread Hprobe).
  fold filter_lower.
  split; [|split].
  - etrans; [apply sublist_take|apply sublist_filter].
  - apply Forall_take, Forall_forall.
    intros i [Hi _]%list_elem_of_filter. by apply Is_true_true.
  - rewrite length_take. lia.
Qed.

Lemma category_keywords_table (kw : string) :
  kw ∈ category_keywords <-> is_Some (type_filters !! kw).
Proof.
  split.
  - unfold category_keywords. rewrite !elem_of_cons, elem_of_nil.
    intros [->|[->|[->|[->|[->|[->|[->|[->|[]]]]]]]]]; by eexists.
  - intros [exts Hkw]. unfold type_filters in Hkw.
    apply elem_of_list_to_map_2 in Hkw.
    unfold category_keywords.
    rewrite !elem_of_cons in Hkw. rewrite !elem_of_cons.
    destruct Hkw as [H|[H|[H|[H|[H|[H|[H|[H|H]]]]]]]];
      try (injection H as -> _; tauto).
    by apply elem_of_nil in H.
Qed.

Lemma filter_predicate_category (kw : string) (exts : list string) (i : Path) :
  type_filters !! kw = Some exts ->
  filter_predicate kw i = true <-> PyStr.lower (suffix i) ∈ exts.
Proof.
  intros Hkw. unfold filter_predicate, has_extension_in. rewrite Hkw.
  rewrite <- Is_true_true. apply bool_decide_spec.
Qed.

(** C8, as the code has it.  For each of the keys of the table (img,
    image, vid, video, audio, doc, code, archive) the filter reads the
    current directory and, when the read succeeds and no [is_dir] of the
    sort raises on a child that passes, keeps the first 300, in sort
    order, of the children whose lowercased suffix is in the set of the
    key: every entry kept is such a child, and every such child is kept
    when there are at most 300 of them. *)
Theorem category_filter_keeps_extensions (self : FileExplorer)
    (filter_text kw : string) (items : list Path) :
  kw ∈ category_keywords ->
  PyStr.strip (PyStr.lower filter_text) = kw ->
  iterdir fs (current_path (file_list self)) = inr items ->
  probe_error fs (filter (fun i => filter_predicate kw i) items) = None ->
  exists exts : list string,
    type_filters !! kw = Some exts
    /\ files (file_list (apply_filter fs self filter_text)) =
         take listing_cap
           (sort_items fs (filter (fun i => PyStr.lower (suffix i) ∈ exts) items))
    /\ (forall i, i ∈ files (file_list (apply_filter fs self filter_text)) ->
          i ∈ items /\ PyStr.lower (suffix i) ∈ exts)
    /\ (length (filter (fun i => PyStr.lower (suffix i) ∈ exts) items) <= listing_cap ->
        forall i, i ∈ items -> PyStr.lower (suffix i) ∈ exts ->
          i ∈ files (file_list (apply_filter fs self filter_text))).
Proof.
  intros [exts Hkw]%category_keywords_table Htext Hread Hprobe.
  exists exts. split; [done|].
  assert (kw <> "") as Hne.
  { intros ->. by vm_compute in Hkw. }
  rewrite <- Htext in Hne, Hprobe.
  rewrite (apply_filter_files self filter_text items Hne Hread Hprobe), Htext.
  unfold sort_items. rewrite filter_sort_by.
  rewrite (list_filter_iff _ (fun i => PyStr.lower (suffix i) ∈ exts)).
  2:{ intros i. rewrite Is_true_true. by apply filter_predicate_category. }
  split; [done|]. split.
  - intros i Hi.
    eapply elem_of_sublist in Hi; [|apply sublist_take].
    rewrite sort_by_perm in Hi.
    apply list_elem_of_filter in Hi as [? ?]. done.
  - intros Hlen i Hi Hext.
    rewrite take_ge by (by rewrite sort_by_length).
    rewrite sort_by_perm. by apply list_elem_of_filter.
Qed.

End Filtering.

(** ** The breadth-first search *)

Section Search.
Variables (fs : FileSystem) (query : string) (result_limit dir_limit : nat).

Local Abbreviation mk_state := (fun q r v n =>
  {| search_queue := q; results := r; visited := v; dir_reads := n |}).

(** The [for] loop appends to the results the matching children it gets
    to, and to the queue the directories among the children before the
    first error, both in the order of the listing. *)
Lemma scan_items_spec (items : list Path) (st : SearchState) :
  fst (scan_items fs query st items) =
  {| search_queue := search_queue st ++ enqueued fs items;
     results := results st
       ++ filter (fun i => PyStr.contains query (PyStr.lower (name i)))
            (scanned fs items);
     visited := visited st;
     dir_reads := dir_reads st |}.
Proof.
  revert st. induction items as [|item items IH]; intros st; simpl.
  - rewrite filter_nil, !app_nil_r. by destruct st.
  - unfold scan_item.
    destruct (fs_probe fs item) as [e|[|]]; simpl;
      rewrite ?IH, ?filter_cons, ?filter_nil; unfold SearchQueue.enqueue; simpl;
      destruct (PyStr.contains query (PyStr.lower (name item)));
      simpl; by rewrite <- ?app_assoc, ?app_nil_r.
Qed.

(** Expanding [current] appends to the queue the children it enqueues and
    to the results the matching children it gets to. *)
Lemma expand_scan (current : Path) (st : SearchState) :
  search_queue (expand fs query current st)
    = search_queue st ++ enqueued_items fs current
  /\ results (expand fs query current st)
     = results st ++ filter (fun i => matches query i) (scanned_items fs current)
  /\ visited (expand fs query current st) = visited st
  /\ dir_reads (expand fs query current st) <= S (dir_reads st).
Proof.
  unfold expand, enqueued_items, scanned_items, expanded_items, fs_is_dir.
  destruct (fs_probe fs current) as [e|[|]]; simpl;
    rewrite ?filter_nil, ?app_nil_r; auto.
  destruct (iterdir fs current) as [e|items]; simpl;
    rewrite ?filter_nil, ?app_nil_r; auto.
  rewrite scan_items_spec; simpl. auto.
Qed.

Lemma expand_visited (current : Path) (st : SearchState) :
  visited (expand fs query current st) = visited st.
Proof. apply expand_scan. Qed.

Lemma expand_dir_reads (current : Path) (st : SearchState) :
  dir_reads (expand fs query current st) <= S (dir_reads st).
Proof. apply expand_scan. Qed.

Lemma scanned_prefix (items : list Path) : scanned fs items `prefix_of` items.
Proof.
  induction items as [|item items IH]; simpl; [done|].
  destruct (fs_probe fs item); [|by apply prefix_cons].
  apply prefix_cons, prefix_nil.
Qed.

Lemma scanned_sublist (items : list Path) : scanned fs items `sublist_of` items.
Proof.
  induction items as [|item items IH]; simpl; [done|].
  destruct (fs_probe fs item); [|by apply sublist_skip].
  apply sublist_skip, sublist_nil_l.
Qed.

Lemma enqueued_sublist (items : list Path) : enqueued fs items `sublist_of` items.
Proof.
  induction items as [|item items IH]; simpl; [done|].
  destruct (fs_probe fs item) as [e|[|]].
  - apply sublist_nil_l.
  - by apply sublist_skip.
  - by apply sublist_cons.
Qed.

Lemma enqueued_is_dir (items : list Path) :
  Forall (fun c => fs_is_dir fs c = true) (enqueued fs items).
Proof.
  induction items as [|item items IH]; simpl; [done|].
  destruct (fs_probe fs item) as [e|[|]] eqn:Hitem; [done| |done].
  constructor; [|done]. unfold fs_is_dir. by rewrite Hitem.
Qed.

(** Where no [is_dir] raises, the loop gets to every child. *)
Lemma scanned_all (items : list Path) :
  probe_error fs items = None -> scanned fs items = items.
Proof.
  induction items as [|item items IH]; simpl; [done|].
  destruct (fs_probe fs item); [done|]. intros H. by rewrite IH.
Qed.

(** Where no [is_dir] raises, the loop enqueues every directory among the
    children. *)
Lemma enqueued_all (items : list Path) :
  probe_error fs items = None ->
  enqueued fs items = filter (fun i => fs_is_dir fs i) items.
Proof.
  induction items as [|item items IH]; simpl; [done|].
  rewrite filter_cons.
  destruct (fs_is_dir fs item) eqn:Hdir; unfold fs_is_dir in Hdir;
    destruct (fs_probe fs item) as [e|[|]]; try done;
    intros H; simpl; by rewrite IH.
Qed.

(** The two equations of the loop. *)
Lemma bfs_while_nil (fuel : nat) (res : list Path) (seen : gset Path) (reads : nat) :
  bfs_while fs query result_limit dir_limit fuel [] res seen reads =
  Some (mk_state [] res seen reads).
Proof. by destruct fuel. Qed.

Lemma bfs_while_cons (fuel : nat) (current : Path) (rest : SearchQueue.t)
    (res : list Path) (seen : gset Path) (reads : nat) :
  bfs_while fs query result_limit dir_limit fuel (current :: rest) res seen reads =
  if within_limits result_limit dir_limit res seen then
    if decide (current ∈ seen) then
      bfs_while fs query result_limit dir_limit fuel rest res seen reads
    else
      match fuel with
      | 0 => None
      | S fuel' =>
          let st' := expand fs query current
            (mk_state rest res ({[current]} ∪ seen) reads) in
          bfs_while fs query result_limit dir_limit fuel'
            (search_queue st') (results st') (visited st') (dir_reads st')
      end
  else Some (mk_state (current :: rest) res seen reads).
Proof. by destruct fuel. Qed.

(** Induction along the passes of a run that stops. *)
Lemma bfs_while_ind
    (P : SearchQueue.t -> list Path -> gset Path -> nat -> SearchState -> Prop) :
  (forall res seen reads, P [] res seen reads (mk_state [] res seen reads)) ->
  (forall current rest res seen reads,
      within_limits result_limit dir_limit res seen = false ->
      P (current :: rest) res seen reads (mk_state (current :: rest) res seen reads)) ->
  (forall current rest res seen reads st,
      within_limits result_limit dir_limit res seen = true ->
      current ∈ seen ->
      P rest res seen reads st ->
      P (current :: rest) res seen reads st) ->
  (forall current rest res seen reads st,
      within_limits result_limit dir_limit res seen = true ->
      current ∉ seen ->
      let st' := expand fs query current
        (mk_state rest res ({[current]} ∪ seen) reads) in
      P (search_queue st') (results st') (visited st') (dir_reads st') st ->
      P (current :: rest) res seen reads st) ->
  forall fuel queue res seen reads st,
    bfs_while fs query result_limit dir_limit fuel queue res seen reads = Some st ->
    P queue res seen reads st.
Proof.
  intros Hnil Hstop Hskip Hexpand.
  induction fuel as [|fuel IHfuel];
    induction queue as [|current rest IHqueue]; intros res seen reads st;
    rewrite ?bfs_while_nil, ?bfs_while_cons.
  - intros [= <-]. apply Hnil.
  - destruct (within_limits _ _ _ _) eqn:Hlim.
    + destruct (decide (current ∈ seen)); [|done].
      intros Hrun. apply Hskip; auto.
    + intros [= <-]. by apply Hstop.
  - intros [= <-]. apply Hnil.
  - destruct (within_limits _ _ _ _) eqn:Hlim.
    + destruct (decide (current ∈ seen)).
      * intros Hrun. apply Hskip; auto.
      * intros Hrun. apply Hexpand; auto.
    + intros [= <-]. by apply Hstop.
Qed.

(** Fuel for every directory that may still be visited is enough. *)
Lemma bfs_while_terminates (fuel : nat) (queue : SearchQueue.t)
    (res : list Path) (seen : gset Path) (reads : nat) :
  dir_limit <= fuel + size seen ->
  is_Some (bfs_while fs query result_limit dir_limit fuel queue res seen reads).
Proof.
  revert queue res seen reads.
  induction fuel as [|fuel IHfuel];
    induction queue as [|current rest IHqueue]; intros res seen reads Hfuel;
    rewrite ?bfs_while_nil, ?bfs_while_cons; try done.
  - destruct (within_limits _ _ _ _) eqn:Hlim; [|done].
    destruct (decide (current ∈ seen)); [by apply IHqueue|].
    unfold within_limits in Hlim.
    apply andb_true_iff in Hlim as [_ Hlim%Nat.ltb_lt]. lia.
  - destruct (within_limits _ _ _ _) eqn:Hlim; [|done].
    destruct (decide (current ∈ seen)); [by apply IHqueue|].
    apply IHfuel. rewrite expand_visited; simpl.
    rewrite size_union, size_singleton by set_solver. lia.
Qed.

(** Where the loop stops, its condition is false; it has read at most as
    many directories as it has visited, and visited at most
    [dir_limit]. *)
Lemma bfs_while_final (fuel : nat) (queue : SearchQueue.t)
    (res : list Path) (seen : gset Path) (reads : nat) (st : SearchState) :
  bfs_while fs query result_limit dir_limit fuel queue res seen reads = Some st ->
  reads <= size seen -> size seen <= dir_limit ->
  loop_condition result_limit dir_limit st = false
  /\ dir_reads st <= size (visited st)
  /\ size (visited st) <= dir_limit.
Proof.
  revert fuel queue res seen reads st.
  apply (bfs_while_ind (fun queue res seen reads st =>
    reads <= size seen -> size seen <= dir_limit ->
    loop_condition result_limit dir_limit st = false
    /\ dir_reads st <= size (visited st)
    /\ size (visited st) <= dir_limit)).
  - intros res seen reads Hreads Hseen. done.
  - intros current rest res seen reads Hlim Hreads Hseen.
    split; [|done]. unfold loop_condition; simpl.
    unfold within_limits in Hlim. by rewrite Hlim.
  - auto.
  - intros current rest res seen reads st Hlim Hnew st' IH Hreads Hseen.
    unfold within_limits in Hlim.
    apply andb_true_iff in Hlim as [_ Hlim%Nat.ltb_lt].
    assert (size ({[current]} ∪ seen) = S (size seen)) as Hsize.
    { rewrite size_union by (by apply disjoint_singleton_l).
  by rewrite size_singleton. }
    apply IH.
    + subst st'. rewrite expand_visited; simpl. rewrite Hsize.
      etrans; [apply expand_dir_reads|]. simpl. lia.
    + subst st'. rewrite expand_visited; simpl. lia.
Qed.

(** [bfs_while] runs the loop given by [loop_condition] and [loop_body]:
    its result is reached after some number of passes, and the loop
    condition is false there. *)
Lemma bfs_while_iterates (fuel : nat) (queue : SearchQueue.t)
    (res : list Path) (seen : gset Path) (reads : nat) (st : SearchState) :
  bfs_while fs query result_limit dir_limit fuel queue res seen reads = Some st ->
  exists n : nat,
    iterate_loop fs query result_limit dir_limit n (mk_state queue res seen reads) = st
    /\ loop_condition result_limit dir_limit st = false.
Proof.
  revert fuel queue res seen reads st.
  apply (bfs_while_ind (fun queue res seen reads st =>
    exists n : nat,
      iterate_loop fs query result_limit dir_limit n (mk_state queue res seen reads) = st
      /\ loop_condition result_limit dir_limit st = false)).
  - intros res seen reads. by exists 0.
  - intros current rest res seen reads Hlim. exists 0. split; [done|].
    unfold loop_condition; simpl.
    unfold within_limits in Hlim. by rewrite Hlim.
  - intros current rest res seen reads st Hlim Hin [n [Hn Hstop]].
    exists (S n). split; [|done]. simpl.
    unfold loop_condition, loop_body; simpl.
    unfold within_limits in Hlim. rewrite Hlim.
    by destruct (decide (current ∈ seen)).
  - intros current rest res seen reads st Hlim Hnew st' [n [Hn Hstop]].
    exists (S n). split; [|done]. simpl.
    unfold loop_condition, loop_body; simpl.
    unfold within_limits in Hlim. rewrite Hlim.
    destruct (decide (current ∈ seen)); [done|].
    subst st'. by destruct (expand _ _ _ _).
Qed.

End Search.

(** ** What the search returns *)

Section SearchResults.
Variable fs : FileSystem.

Lemma iterdir_children (p : Path) (items : list Path) :
  iterdir fs p = inr items ->
  Forall (fun i => exists n : string, i = joinpath p n) items.
Proof.
  unfold iterdir. destruct (fs_listdir fs p) as [e|names]; [done|].
  intros [= <-]. apply Forall_forall. intros i Hi.
  apply list_elem_of_fmap in Hi as [n [-> _]]. by exists n.
Qed.

Lemma child_strict_descendant (root p : Path) (n : string) :
  descendant root p -> strict_descendant root (joinpath p n).
Proof.
  intros [rel ->]. exists (rel ++ [n]). split.
  - by destruct rel.
  - unfold joinpath. by rewrite app_assoc.
Qed.

Lemma strict_descendant_descendant (root p : Path) :
  strict_descendant root p -> descendant root p.
Proof. intros [rel [_ ->]]. by exists rel. Qed.

Lemma strict_descendant_irrefl (root : Path) : ~ strict_descendant root root.
Proof.
  intros [rel [Hne Heq]]. apply Hne.
  rewrite <- (app_nil_r root) in Heq at 1.
  by apply app_inv_head in Heq.
Qed.

Lemma expanded_items_joinpath (current : Path) :
  Forall (fun i => exists n : string, i = joinpath current n)
    (expanded_items fs current).
Proof.
  unfold expanded_items. destruct (fs_is_dir fs current); [|done].
  destruct (iterdir fs current) as [e|items] eqn:Hread; [done|].
  by apply iterdir_children.
Qed.

Lemma scanned_items_joinpath (current item : Path) :
  item ∈ scanned_items fs current -> exists n : string, item = joinpath current n.
Proof.
  intros Hin. eapply elem_of_sublist in Hin; [|apply scanned_sublist].
  by apply (proj1 (Forall_forall _ _) (expanded_items_joinpath current)).
Qed.

Lemma enqueued_items_joinpath (current item : Path) :
  item ∈ enqueued_items fs current -> exists n : string, item = joinpath current n.
Proof.
  intros Hin. eapply elem_of_sublist in Hin; [|apply enqueued_sublist].
  by apply (proj1 (Forall_forall _ _) (expanded_items_joinpath current)).
Qed.

(** Expanding a directory at or below the root only adds paths strictly
    below the root, to the queue and to the results. *)
Lemma expand_descendants (root : Path) (query : string)
    (current : Path) (st : SearchState) :
  descendant root current ->
  Forall (descendant root) (search_queue st) ->
  Forall (strict_descendant root) (results st) ->
  Forall (descendant root) (search_queue (expand fs query current st))
  /\ Forall (strict_descendant root) (results (expand fs query current st)).
Proof.
  intros Hcur Hq Hr.
  destruct (expand_scan fs query current st) as (-> & -> & _).
  split; apply Forall_app; (split; [done|]).
  - apply Forall_forall. intros i [n ->]%enqueued_items_joinpath.
    by apply strict_descendant_descendant, child_strict_descendant.
  - apply Forall_forall. intros i [_ [n ->]%scanned_items_joinpath]%list_elem_of_filter.
    by apply child_strict_descendant.
Qed.

Lemma bfs_while_descendants (root : Path) (query : string)
    (result_limit dir_limit fuel : nat) (queue : SearchQueue.t)
    (res : list Path) (seen : gset Path) (reads : nat) (st : SearchState) :
  bfs_while fs query result_limit dir_limit fuel queue res seen reads = Some st ->
  Forall (descendant root) queue ->
  Forall (strict_descendant root) res ->
  Forall (strict_descendant root) (results st).
Proof.
  revert fuel queue res seen reads st.
  apply (bfs_while_ind fs query result_limit dir_limit
    (fun queue res seen reads st =>
      Forall (descendant root) queue ->
      Forall (strict_descendant root) res ->
      Forall (strict_descendant root) (results st))); try done.
  - intros current rest res seen reads st _ _ IH Hq Hr.
    apply Forall_cons in Hq as [_ Hq]. by apply IH.
  - intros current rest res seen reads st _ _ st' IH Hq Hr.
    apply Forall_cons in Hq as [Hcur Hq].
    destruct (expand_descendants root query current
      {| search_queue := rest; results := res;
         visited := {[current]} ∪ seen; dir_reads := reads |} Hcur Hq Hr)
      as [Hq' Hr'].
    by apply IH.
Qed.

Lemma bfs_run_terminates (root : Path) (query : string) (max_results : nat) :
  is_Some (bfs_run fs root query max_results).
Proof. apply bfs_while_terminates. lia. Qed.

(** C10. Every path returned by the search lies strictly below the root;
    the root itself is never returned. *)
Theorem bfs_search_below_root (root : Path) (query : string) (max_results : nat) :
  Forall (strict_descendant root) (bfs_search fs root query max_results)
  /\ root ∉ bfs_search fs root query max_results.
Proof.
  assert (Forall (strict_descendant root) (bfs_search fs root query max_results))
    as Hbelow.
  { unfold bfs_search.
    destruct (bfs_run fs root query max_results) as [st|] eqn:Hrun; [|done].
    apply (bfs_while_descendants root) in Hrun; [done| |done].
    apply Forall_singleton. exists []. by rewrite app_nil_r. }
  split; [done|].
  intros Hin. apply (proj1 (Forall_forall _ _) Hbelow) in Hin.
  by apply strict_descendant_irrefl in Hin.
Qed.

(** The scan of a directory stays within its listing. *)
Lemma scanned_items_listed (current item : Path) :
  item ∈ scanned_items fs current -> item ∈ expanded_items fs current.
Proof. intros Hin. eapply elem_of_sublist; [exact Hin|apply scanned_sublist]. Qed.

Lemma enqueued_items_listed (current item : Path) :
  item ∈ enqueued_items fs current -> item ∈ expanded_items fs current.
Proof. intros Hin. eapply elem_of_sublist; [exact Hin|apply enqueued_sublist]. Qed.

Lemma search_closed_skip (root : Path) (query : string) (current : Path)
    (rest res : list Path) (seen : gset Path) :
  current ∈ seen ->
  search_closed fs root query (current :: rest) res seen ->
  search_closed fs root query rest res seen.
Proof.
  intros Hin [Hroot Hclosed]. split.
  - destruct Hroot as [?|[->|?]%elem_of_cons]; auto.
  - intros d Hd. destruct (Hclosed d Hd) as [Hm Hsub].
    split; [done|]. intros c Hc.
    destruct (Hsub c Hc) as [?|[->|?]%elem_of_cons]; auto.
Qed.

Lemma search_closed_expand (root : Path) (query : string) (current : Path)
    (rest res : list Path) (seen : gset Path) :
  search_closed fs root query (current :: rest) res seen ->
  search_closed fs root query
    (rest ++ enqueued_items fs current)
    (res ++ filter (fun i => matches query i) (scanned_items fs current))
    ({[current]} ∪ seen).
Proof.
  assert (forall x : Path, x ∈ seen -> x ∈ {[current]} ∪ seen) as Hold.
  { intros x Hx. apply elem_of_union. by right. }
  assert (current ∈ {[current]} ∪ seen) as Hcur.
  { apply elem_of_union. left. by apply elem_of_singleton. }
  intros [Hroot Hclosed]. split.
  - destruct Hroot as [?|[->|?]%elem_of_cons]; auto.
    right. apply elem_of_app. by left.
  - intros d Hd.
    apply elem_of_union in Hd as [Heq%elem_of_singleton|Hd].
    + subst d. split.
      * intros item Hitem Hm. apply elem_of_app. right.
        apply list_elem_of_filter. split; [by apply Is_true_true|done].
      * intros c Hc. right. apply elem_of_app. by right.
    + destruct (Hclosed d Hd) as [Hm Hsub]. split.
      * intros item Hitem Hmatch. apply elem_of_app. left. by apply Hm.
      * intros c Hc.
        destruct (Hsub c Hc) as [?|[->|?]%elem_of_cons]; auto.
        right. apply elem_of_app. by left.
Qed.

Lemma bfs_while_closed (root : Path) (query : string)
    (result_limit dir_limit fuel : nat)
    (queue : SearchQueue.t) (res : list Path) (seen : gset Path) (reads : nat)
    (st : SearchState) :
  bfs_while fs query result_limit dir_limit fuel queue res seen reads = Some st ->
  search_closed fs root query queue res seen ->
  search_closed fs root query (search_queue st) (results st) (visited st).
Proof.
  revert fuel queue res seen reads st.
  apply (bfs_while_ind fs query result_limit dir_limit
    (fun queue res seen reads st =>
      search_closed fs root query queue res seen ->
      search_closed fs root query (search_queue st) (results st) (visited st)));
    try done.
  - intros current rest res seen reads st _ Hin IH Hclosed.
    by apply IH, (search_closed_skip root query current).
  - intros current rest res seen reads st _ _ st' IH Hclosed.
    destruct (expand_scan fs query current
      {| search_queue := rest; results := res;
         visited := {[current]} ∪ seen; dir_reads := reads |})
      as (Hq' & Hr' & Hv' & _).
    fold st' in Hq', Hr', Hv'. simpl in Hq', Hr', Hv'.
    apply IH. rewrite Hq', Hr', Hv'.
    by apply search_closed_expand.
Qed.

(** A search that stops with an empty queue has visited every path it can
    reach and has every matching child its scans got to. *)
Lemma bfs_run_exhaustive (root : Path) (query : string) (max_results : nat)
    (st : SearchState) :
  bfs_run fs root query max_results = Some st ->
  search_queue st = [] ->
  (forall d, search_reaches fs root d -> d ∈ visited st)
  /\ (forall d item,
        d ∈ visited st -> item ∈ scanned_items fs d ->
        matches query item = true -> item ∈ results st).
Proof.
  intros Hrun Hempty.
  apply (bfs_while_closed root) in Hrun.
  2:{ split; [right; apply list_elem_of_here|].
      intros d Hd. by apply elem_of_empty in Hd. }
  rewrite Hempty in Hrun. destruct Hrun as [Hroot Hclosed]. split.
  - induction 1 as [|d c _ IH Hc].
    + destruct Hroot as [?|Hin]; [done|]. by apply elem_of_nil in Hin.
    + destruct (Hclosed d IH) as [_ Hsub].
      destruct (Hsub c Hc) as [?|Hin]; [done|]. by apply elem_of_nil in Hin.
  - intros d item Hd. by apply (Hclosed d Hd).
Qed.

(** The search can reach the root and the children the scan of the root
    enqueues. *)
Lemma search_reaches_first_level (root : Path) :
  Forall (search_reaches fs root) (root :: enqueued_items fs root).
Proof.
  constructor; [apply reaches_root|].
  apply Forall_forall. intros c Hc.
  by apply (reaches_child fs root root); [apply reaches_root|].
Qed.

(** Distinct paths that are all in a set are at most as many as the set
    has elements. *)
Lemma distinct_members_size (ds : list Path) (seen : gset Path) :
  NoDup ds -> (forall d, d ∈ ds -> d ∈ seen) -> length ds <= size seen.
Proof.
  intros Hnodup Hsub.
  rewrite <- (size_list_to_set (C := gset Path) ds Hnodup).
  apply subseteq_size. intros d Hd. apply Hsub.
  by apply elem_of_list_to_set in Hd.
Qed.

(** C7, as the code has it.  The search always stops, having read at most
    as many directories as it has visited and visited at most [max_dirs]
    of them.  It stops short of [max_dirs] visited directories only when
    the queue is empty or the results have reached [max_results]; so where
    it can reach more than [max_dirs] directories and the results stay
    below [max_results], it visits exactly [max_dirs] of them. *)
Theorem bfs_search_stops (root : Path) (query : string) (max_results : nat) :
  exists st : SearchState,
    bfs_run fs root query max_results = Some st
    /\ bfs_search fs root query max_results = results st
    /\ dir_reads st <= size (visited st)
    /\ size (visited st) <= max_dirs
    /\ (size (visited st) = max_dirs
        \/ max_results <= length (results st)
        \/ search_queue st = [])
    /\ (forall ds : list Path,
          NoDup ds -> Forall (search_reaches fs root) ds ->
          max_dirs < length ds ->
          length (results st) < max_results ->
          size (visited st) = max_dirs).
Proof.
  destruct (bfs_run_terminates root query max_results) as [st Hrun].
  exists st. split; [done|].
  split; [unfold bfs_search; by rewrite Hrun|].
  pose proof Hrun as Hclosed.
  apply bfs_while_final in Hrun as (Hstop & Hreads & Hseen);
    [|rewrite size_empty; lia..].
  split; [done|]. split; [done|].
  assert (size (visited st) = max_dirs
          \/ max_results <= length (results st)
          \/ search_queue st = []) as Hcases.
  { unfold loop_condition in Hstop.
    apply andb_false_iff in Hstop as [Hstop|Hstop%Nat.ltb_ge]; [|left; lia].
    apply andb_false_iff in Hstop as [Hstop|Hstop%Nat.ltb_ge]; [|right; left; lia].
    right; right. unfold SearchQueue.is_empty in Hstop.
    apply negb_false_iff, Nat.eqb_eq in Hstop. by apply nil_length_inv. }
  split; [done|].
  intros ds Hnodup Hds Hmany Hfew.
  destruct Hcases as [?|[?|Hempty]]; [done|lia|].
  destruct (bfs_run_exhaustive root query max_results st Hclosed Hempty)
    as [Hall _].
  assert (length ds <= size (visited st)); [|lia].
  apply distinct_members_size; [done|].
  intros d Hd. apply Hall. by apply (proj1 (Forall_forall _ _) Hds).
Qed.

End SearchResults.

(** ** Debounced searches *)

Section Debounce.
Variable fs : FileSystem.

(** What one run of [do_search] publishes. *)
Local Abbreviation publication self := (fun q : string =>
  (bfs_search fs (current_path (file_list self)) (PyStr.lower q) default_max_results, q)).

Lemma run_app (self : FileExplorer) (evs1 evs2 : list Event) :
  run fs self (evs1 ++ evs2) = run fs (run fs self evs1) evs2.
Proof. apply foldl_app. Qed.

Lemma run_cons (self : FileExplorer) (ev : Event) (evs : list Event) :
  run fs self (ev :: evs) = run fs (handle fs self ev) evs.
Proof. done. Qed.

(** The only check of [do_search]: outside search mode nothing is searched
    nor published. *)
Lemma do_search_inactive (self : FileExplorer) (query : string) :
  search_active self = false -> do_search fs self query = self.
Proof. unfold do_search. by intros ->. Qed.

Lemma do_search_active (self : FileExplorer) (query : string) :
  search_active self = true ->
  do_search fs self query =
  set_search_panel (search_panel self ++ [publication self query]) self.
Proof. unfold do_search. by intros ->. Qed.

(** Typing queries only adds timers. *)
Lemma run_inputs (self : FileExplorer) (queries : list string) :
  search_active self = true ->
  Forall (fun q => 2 <= String.length q) queries ->
  run fs self (map InputChanged queries) = set_timers (timers self ++ queries) self.
Proof.
  intros Hactive Hlen. revert self Hactive.
  induction Hlen as [|q queries Hq _ IH]; intros self Hactive.
  - simpl. rewrite app_nil_r. by destruct self.
  - rewrite fmap_cons, run_cons. simpl handle. unfold on_input_changed.
    rewrite Hactive. apply Nat.leb_le in Hq as ->. simpl andb. cbv iota.
    rewrite IH by done. unfold set_timers; simpl.
    by rewrite <- app_assoc.
Qed.

(** In search mode every pending timer publishes when it fires. *)
Lemma run_timers (pending : list string) (self : FileExplorer) :
  search_active self = true ->
  timers self = pending ->
  run fs self (replicate (length pending) TimerElapsed) =
  set_timers []
    (set_search_panel (search_panel self ++ map (publication self) pending) self).
Proof.
  revert self. induction pending as [|q pending IH]; intros self Hactive Hts.
  - simpl. rewrite app_nil_r. destruct self; simpl in *. by subst.
  - simpl replicate. rewrite run_cons. simpl handle. unfold timer_fires.
    rewrite Hts, do_search_active by done.
    rewrite IH by done. unfold set_timers, set_search_panel; simpl.
    by rewrite <- app_assoc.
Qed.

(** C2, as the code has it.  There is no generation counter and no timer
    is ever cancelled: when queries of two or more characters are typed
    in search mode and their timers then fire, the results of every one of
    them are published, in the order in which the queries were typed; the
    results of the last query are published last. *)
Theorem every_query_is_published (self : FileExplorer) (queries : list string) :
  search_active self = true ->
  timers self = [] ->
  Forall (fun q => 2 <= String.length q) queries ->
  search_panel
    (run fs self (map InputChanged queries
                  ++ replicate (length queries) TimerElapsed))
  = search_panel self ++ map (publication self) queries.
Proof.
  intros Hactive Hts Hlen.
  rewrite run_app, run_inputs by done.
  rewrite Hts; simpl.
  by rewrite (run_timers queries).
Qed.

End Debounce.

(** ** The program on concrete filesystems *)

Section Runs.
Import Examples.

(** C1.  The limit is only tested between directories: the children of one
    directory are all appended.  With [max_results = 1] and two matching
    files in the root the search returns both; with the default limit of
    150 and 151 matching files it returns 151 paths. *)
Theorem bfs_search_exceeds_max_results :
  bfs_search fs_two_files root "a" 1 = [joinpath root "a1"; joinpath root "a2"]
  /\ length (bfs_search fs_151_files root "x" default_max_results) = 151.
Proof. split; compute_done. Qed.

(** The search example of the specification. *)
Example bfs_search_finds_target :
  bfs_search fs_search root "target" default_max_results
  = [["r"; "a"; "target.txt"]].
Proof. compute_done. Qed.

(** A directory that cannot be read is skipped and the search goes on. *)
Example bfs_search_skips_locked :
  bfs_search fs_locked root "t" default_max_results
  = [["r"; "sub"; "target.txt"]].
Proof. compute_done. Qed.

(** The root is not returned even when its name contains the query. *)
Example bfs_search_root_matches :
  PyStr.contains "target" (PyStr.lower (name ["target"])) = true
  /\ bfs_search fs_root_matches ["target"] "target" default_max_results
     = [["target"; "target.txt"]].
Proof. split; compute_done. Qed.

(** C2, counterexample.  The query "ta" is typed, then "tar" before the
    timer of "ta" has fired.  When the first timer fires the results of
    the older query are published. *)
Lemma stale_results_are_published :
  search_panel
    (run fs_search searching [InputChanged "ta"; InputChanged "tar"; TimerElapsed])
  = [([["r"; "a"; "target.txt"]], "ta")]
  /\ timers (run fs_search searching
               [InputChanged "ta"; InputChanged "tar"; TimerElapsed])
     = ["tar"].
Proof. split; compute_done. Qed.

Lemma every_query_is_published_witness :
  search_panel
    (run fs_search searching
       (map InputChanged ["ta"; "tar"] ++ replicate 2 TimerElapsed))
  = [([["r"; "a"; "target.txt"]], "ta"); ([["r"; "a"; "target.txt"]], "tar")].
Proof.
  assert (search_active searching = true) as Hactive by reflexivity.
  assert (timers searching = []) as Hts by reflexivity.
  assert (Forall (fun q => 2 <= String.length q) ["ta"; "tar"]) as Hlen.
  { repeat constructor. }
  etrans.
  - exact (every_query_is_published fs_search searching ["ta"; "tar"]
             Hactive Hts Hlen).
  - vm_compute. reflexivity.
Defined.

(** C3, counterexample.  The two filesystems give the same listing (the
    hidden file is not shown), yet the same filter on that listing gives
    different results, and on the first filesystem the result is not taken
    from the listing. *)
Lemma apply_filter_depends_on_filesystem :
  files (file_list (on_mount fs_env_and_txt root)) = [joinpath root "a.txt"]
  /\ files (file_list (on_mount fs_txt_only root)) = [joinpath root "a.txt"]
  /\ files (file_list (apply_filter fs_env_and_txt (on_mount fs_env_and_txt root) "env"))
     = [joinpath root ".env"]
  /\ files (file_list (apply_filter fs_txt_only (on_mount fs_txt_only root) "env"))
     = []
  /\ ~ files (file_list (apply_filter fs_env_and_txt (on_mount fs_env_and_txt root) "env"))
       `sublist_of` files (file_list (on_mount fs_env_and_txt root)).
Proof.
  split; [compute_done|]. split; [compute_done|]. split; [compute_done|].
  split; [compute_done|].
  intros Hsub. apply sublist_cons_l in Hsub as (k1 & k2 & Hk & _).
  vm_compute in Hk. by destruct k1 as [|? [|? ?]].
Qed.

(** The filter of the specification's example. *)
Example apply_filter_image :
  files (file_list (apply_filter fs_mixed (on_mount fs_mixed root) "image"))
  = [joinpath root "photo.PNG"].
Proof. compute_done. Qed.

(** An extension filter compares the whole suffix. *)
Example apply_filter_extension :
  files (file_list (apply_filter fs_mixed (on_mount fs_mixed root) ".tx")) = []
  /\ files (file_list (apply_filter fs_mixed (on_mount fs_mixed root) ".TXT"))
     = [joinpath root "notes.txt"].
Proof. split; compute_done. Qed.

(** C6, witness: entering the unreadable directory [r/locked]. *)
Lemma load_directory_read_error_witness :
  fs_listdir fs_locked (joinpath root "locked") = inl PermissionError
  /\ files (file_list (action_enter fs_locked (on_mount fs_locked root))) = []
  /\ action_back fs_locked (action_enter fs_locked (on_mount fs_locked root))
     = on_mount fs_locked root.
Proof.
  assert (fs_listdir fs_locked (joinpath root "locked") = inl PermissionError)
    as He by reflexivity.
  destruct (load_directory_read_error fs_locked (on_mount fs_locked root)
              (joinpath root "locked") PermissionError He)
    as (Hload & Henter & _ & Hback); try compute_done.
  split; [exact He|].
  split.
  - rewrite Henter, Hload. reflexivity.
  - rewrite Hback. compute_done.
Defined.

(** C5, counterexample.  The directory has two children, far fewer than
    300.  With hidden entries off, [.secret] is filtered out before the
    sort and [a.txt] is listed; with hidden entries on, the sort calls
    [is_dir] on [.secret], which raises, and nothing is listed: in
    whatever order the two children are put, the listing is not the first
    300 of them. *)
Lemma failing_probe_empties_listing :
  visible_children fs_secret true root
    = [joinpath root "a.txt"; joinpath root ".secret"]
  /\ fs_probe fs_secret (joinpath root ".secret") = inl PermissionError
  /\ files (file_list (on_mount fs_secret root)) = [joinpath root "a.txt"]
  /\ show_hidden (toggle_hidden fs_secret (file_list (on_mount fs_secret root))) = true
  /\ files (toggle_hidden fs_secret (file_list (on_mount fs_secret root))) = []
  /\ forall sorted : list Path,
       sorted ≡ₚ visible_children fs_secret true root ->
       files (toggle_hidden fs_secret (file_list (on_mount fs_secret root)))
         <> take listing_cap sorted.
Proof.
  split; [reflexivity|]. split; [reflexivity|]. split; [reflexivity|].
  split; [reflexivity|]. split; [reflexivity|].
  intros sorted Hperm Heq. apply Permutation_length in Hperm.
  apply (f_equal length) in Heq. rewrite length_take in Heq.
  rewrite Hperm in Heq. vm_compute in Heq. discriminate Heq.
Qed.

(** C7 on the tree of 302 directories, with a query that nothing matches:
    the search visits exactly [max_dirs] of them. *)
Lemma bfs_search_stops_witness :
  exists st : SearchState,
    bfs_run fs_302_dirs root "q" default_max_results = Some st
    /\ length (root :: enqueued_items fs_302_dirs root) = 302
    /\ bfs_search fs_302_dirs root "q" default_max_results = []
    /\ size (visited st) = max_dirs.
Proof.
  destruct (bfs_search_stops fs_302_dirs root "q" default_max_results)
    as (st & Hrun & Hres & _ & _ & _ & Hexact).
  assert (bfs_search fs_302_dirs root "q" default_max_results = []) as Hnone
    by (vm_compute; reflexivity).
  exists st. split; [exact Hrun|]. split; [vm_compute; reflexivity|].
  split; [exact Hnone|].
  apply (Hexact (root :: enqueued_items fs_302_dirs root)).
  - compute_done.
  - apply search_reaches_first_level.
  - vm_compute. lia.
  - rewrite <- Hres, Hnone. vm_compute. lia.
Defined.

(** C7, counterexample.  The tree has 302 directories, more than
    [max_dirs]; the 301 children of the root all match, so the search
    stops after the root, the only directory it visits. *)
Lemma bfs_search_stops_early :
  length dirs_302 = 302
  /\ Forall (fun d => fs_is_dir fs_302_dirs d.1 = true) dirs_302
  /\ max_dirs < length dirs_302
  /\ ((fun st => size (visited st))
        <$> bfs_run fs_302_dirs root "x" default_max_results) = Some 1
  /\ length (bfs_search fs_302_dirs root "x" default_max_results) = 301.
Proof.
  split; [compute_done|]. split; [compute_done|]. split; [compute_done|].
  split; compute_done.
Qed.

(** C8, counterexample.  "document" is not a key of the table, so the text
    is matched against the names: the PDF is dropped and a file that is
    not a document is kept.  And of 301 images the filter "image" keeps
    300. *)
Lemma category_filter_not_as_claimed :
  type_filters !! "document" = None
  /\ type_filters !! "doc" = Some [".pdf"; ".doc"; ".docx"; ".txt"; ".md"]
  /\ files (file_list (apply_filter fs_documents (on_mount fs_documents root) "document"))
     = [joinpath root "document_list.xyz"]
  /\ files (file_list (apply_filter fs_documents (on_mount fs_documents root) "doc"))
     = [joinpath root "report.pdf"]
  /\ length (filter (fun i => PyStr.lower (suffix i) = ".png")
               (visible_children fs_301_images true root)) = 301
  /\ length (files (file_list
               (apply_filter fs_301_images (on_mount fs_301_images root) "image")))
     = 300.
Proof.
  split; [compute_done|]. split; [compute_done|]. split; [compute_done|].
  split; [compute_done|]. split; compute_done.
Qed.

Lemma category_filter_keeps_extensions_witness :
  "image" ∈ category_keywords
  /\ PyStr.strip (PyStr.lower " Image ") = "image"
  /\ exists exts : list string,
       type_filters !! "image" = Some exts
       /\ files (file_list (apply_filter fs_mixed (on_mount fs_mixed root) " Image "))
          = take listing_cap
              (sort_items fs_mixed
                 (filter (fun i => PyStr.lower (suffix i) ∈ exts)
                    (map (joinpath root) ["photo.PNG"; "notes.txt"; "clip.mp4"]))).
Proof.
  assert ("image" ∈ category_keywords) as Hkw by compute_done.
  assert (PyStr.strip (PyStr.lower " Image ") = "image") as Htext by reflexivity.
  assert (iterdir fs_mixed (current_path (file_list (on_mount fs_mixed root)))
          = inr (map (joinpath root) ["photo.PNG"; "notes.txt"; "clip.mp4"]))
    as Hread by reflexivity.
  assert (probe_error fs_mixed
            (filter (fun i => filter_predicate "image" i)
               (map (joinpath root) ["photo.PNG"; "notes.txt"; "clip.mp4"]))
          = None) as Hprobe by reflexivity.
  destruct (category_filter_keeps_extensions fs_mixed (on_mount fs_mixed root)
              " Image " "image" _ Hkw Htext Hread Hprobe)
    as (exts & Hexts & Hfiles & _).
  split; [exact Hkw|]. split; [exact Htext|].
  exists exts. split; [exact Hexts|exact Hfiles].
Defined.

(** C9, counterexample.  The directory holds 300 files and one hidden
    file.  Without hidden entries all 300 files are listed; with hidden
    entries the hidden file takes a place and the last file is cut off. *)
Lemma hidden_entry_displaces_entry :
  show_hidden (file_list (on_mount fs_300_and_hidden root)) = false
  /\ is_hidden (joinpath root (x_name 299)) = false
  /\ (joinpath root (x_name 299)
       ∈ files (load_directory fs_300_and_hidden
                  (file_list (on_mount fs_300_and_hidden root)) root))
  /\ (joinpath root (x_name 299)
       ∉ files (toggle_hidden fs_300_and_hidden
                  (file_list (on_mount fs_300_and_hidden root))))
  /\ filter (fun i => negb (is_hidden i))
       (files (toggle_hidden fs_300_and_hidden
                 (file_list (on_mount fs_300_and_hidden root))))
     <> files (load_directory fs_300_and_hidden
                 (file_list (on_mount fs_300_and_hidden root)) root).
Proof.
  split; [compute_done|]. split; [compute_done|]. split; [compute_done|].
  split; compute_done.
Qed.

Lemma toggle_hidden_adds_hidden_witness :
  show_hidden (file_list (on_mount fs_env_and_txt root)) = false
  /\ length (visible_children fs_env_and_txt true root) <= listing_cap
  /\ files (toggle_hidden fs_env_and_txt (file_list (on_mount fs_env_and_txt root)))
       ≡ₚ files (load_directory fs_env_and_txt
                   (file_list (on_mount fs_env_and_txt root)) root)
          ++ filter (fun i => is_hidden i)
               (visible_children fs_env_and_txt true root).
Proof.
  assert (show_hidden (file_list (on_mount fs_env_and_txt root)) = false)
    as Hoff by reflexivity.
  assert (length (visible_children fs_env_and_txt true root) <= listing_cap)
    as Hlen by (vm_compute; lia).
  assert (probe_error fs_env_and_txt (visible_children fs_env_and_txt true root)
          = None) as Hprobe by reflexivity.
  destruct (toggle_hidden_adds_hidden fs_env_and_txt
              (file_list (on_mount fs_env_and_txt root)) Hoff) as [_ Hsmall].
  destruct (Hsmall Hprobe Hlen) as [_ Hperm].
  split; [exact Hoff|]. split; [exact Hlen|exact Hperm].
Defined.

End Runs.

(** ** The stack and the queue *)

Section StackQueue.

Lemma pushes_app (s : NavigationStack.t) (ps : list Path) :
  foldl (fun s p => NavigationStack.push p s) s ps = s ++ ps.
Proof.
  revert s. induction ps as [|p ps IH]; intros s; simpl.
  - by rewrite app_nil_r.
  - rewrite IH. unfold NavigationStack.push. by rewrite <- app_assoc.
Qed.

Lemma pop_snoc (s : NavigationStack.t) (p : Path) :
  NavigationStack.pop (s ++ [p]) = (Some p, s).
Proof.
  unfold NavigationStack.pop. rewrite rev_app_distr; simpl.
  by rewrite rev_involutive.
Qed.

Lemma pop_inv (s s' : NavigationStack.t) (p : Path) :
  NavigationStack.pop s = (Some p, s') -> s = NavigationStack.push p s'.
Proof.
  unfold NavigationStack.pop, NavigationStack.push.
  destruct (rev s) as [|top below] eqn:Hrev; [done|].
  intros [= -> <-]. rewrite <- (rev_involutive s), Hrev. done.
Qed.

(** X1.  Last in, first out: after pushing [ps] on a stack, as many pops return
    the paths of [ps] from the last to the first and leave the stack as it
    was.  A pop returns [None] exactly on the empty stack, which it leaves
    empty. *)
Theorem navigation_stack_lifo (s : NavigationStack.t) (ps : list Path) :
  pops (length ps) (foldl (fun s p => NavigationStack.push p s) s ps)
    = (Some <$> reverse ps, s)
  /\ ((NavigationStack.pop s).1 = None <-> NavigationStack.is_empty s = true)
  /\ NavigationStack.pop NavigationStack.empty = (None, NavigationStack.empty).
Proof.
  split; [|split; [|done]].
  - rewrite pushes_app. induction ps as [|p ps IH] using rev_ind.
    { simpl. by rewrite app_nil_r. }
    rewrite length_app, Nat.add_1_r, reverse_snoc; simpl.
    rewrite app_assoc, pop_snoc, IH. done.
  - unfold NavigationStack.pop, NavigationStack.is_empty.
    destruct s as [|x s] using rev_ind; [done|].
    rewrite rev_app_distr, length_app; simpl.
    split; [done|]. intros H%Nat.eqb_eq. lia.
Qed.

Lemma enqueues_app (q : SearchQueue.t) (ps : list Path) :
  foldl (fun q p => SearchQueue.enqueue p q) q ps = q ++ ps.
Proof.
  revert q. induction ps as [|p ps IH]; intros q; simpl.
  - by rewrite app_nil_r.
  - rewrite IH. unfold SearchQueue.enqueue. by rewrite <- app_assoc.
Qed.

Lemma dequeues_all (q : SearchQueue.t) :
  dequeues (length q) q = (Some <$> q, []).
Proof.
  induction q as [|p q IH]; [done|]. simpl. by rewrite IH.
Qed.

(** X2.  First in, first out: after enqueueing [ps] behind the paths of a
    queue, dequeueing returns the old paths and then those of [ps], each
    in the order of its arrival, and empties the queue; one more dequeue
    returns [None]. *)
Theorem search_queue_fifo (q : SearchQueue.t) (ps : list Path) :
  dequeues (length q + length ps)
    (foldl (fun q p => SearchQueue.enqueue p q) q ps)
    = (Some <$> (q ++ ps), [])
  /\ dequeues (S (length q + length ps))
       (foldl (fun q p => SearchQueue.enqueue p q) q ps)
     = ((Some <$> (q ++ ps)) ++ [None], []).
Proof.
  rewrite enqueues_app, <- length_app.
  split; [apply dequeues_all|].
  induction (q ++ ps) as [|p l IH]; [done|].
  simpl in *. by rewrite IH.
Qed.

End StackQueue.

(** ** More on listings and the selection *)

Section ListingMore.
Variable fs : FileSystem.

Lemma name_joinpath (p : Path) (n : string) : name (joinpath p n) = n.
Proof. unfold name, joinpath. by rewrite last_last. Qed.

Lemma iterdir_child_of (p : Path) (items : list Path) :
  iterdir fs p = inr items -> Forall (child_of fs p) items.
Proof.
  unfold iterdir. destruct (fs_listdir fs p) as [e|names] eqn:Hread; [done|].
  intros [= <-]. apply Forall_forall. intros i Hi.
  apply list_elem_of_fmap in Hi as [n [-> Hn]]. by exists names, n.
Qed.

Lemma visible_children_child_of (hidden : bool) (path : Path) :
  Forall (child_of fs path) (visible_children fs hidden path).
Proof.
  unfold visible_children.
  destruct (iterdir fs path) as [e|items] eqn:Hread; [done|].
  apply iterdir_child_of in Hread.
  destruct hidden; [done|].
  apply Forall_forall. intros i [_ Hi]%list_elem_of_filter.
  by apply (proj1 (Forall_forall _ _) Hread).
Qed.

Lemma visible_children_hidden (hidden : bool) (path : Path) :
  Forall (fun i => hidden = true \/ is_hidden i = false)
    (visible_children fs hidden path).
Proof.
  unfold visible_children.
  destruct (iterdir fs path) as [e|items]; [done|].
  destruct hidden; [apply Forall_forall; auto|].
  apply Forall_forall. intros i [Hi _]%list_elem_of_filter. right.
  by destruct (is_hidden i).
Qed.

Lemma listed_children_Forall (P : Path -> Prop) (hidden : bool) (path : Path) :
  Forall P (visible_children fs hidden path) ->
  Forall P (listed_children fs hidden path).
Proof.
  intros Hvis.
  by destruct (listed_children_cases fs hidden path) as [[_ ->]|[_ ->]].
Qed.

(** X3.  Every entry of a listing is a child of the directory listed, under a
    name the read returned, and with hidden entries switched off no entry
    has a name that starts with a dot. *)
Theorem load_directory_lists_children (self : FileList) (path : Path) :
  Forall (fun i => child_of fs path i
                   /\ (show_hidden self = true \/ is_hidden i = false))
    (files (load_directory fs self path)).
Proof.
  rewrite load_directory_files.
  apply Forall_take. unfold sort_items.
  rewrite sort_by_perm. apply listed_children_Forall, List.Forall_and.
  - apply visible_children_child_of.
  - apply visible_children_hidden.
Qed.

Lemma joinpath_inj (p : Path) : Inj (=) (=) (joinpath p).
Proof. intros n1 n2 H. unfold joinpath in H. by simplify_list_eq. Qed.

(** X4.  The names of a directory being distinct, no entry is listed twice. *)
Theorem load_directory_no_duplicates (self : FileList) (path : Path)
    (names : list string) :
  fs_listdir fs path = inr names ->
  NoDup names ->
  NoDup (files (load_directory fs self path)).
Proof.
  intros Hread Hnames. rewrite load_directory_files.
  assert (NoDup (listed_children fs (show_hidden self) path)) as Hvis.
  { destruct (listed_children_cases fs (show_hidden self) path)
      as [[_ ->]|[_ ->]]; [|constructor].
    unfold visible_children, iterdir. rewrite Hread.
    assert (NoDup (map (joinpath path) names)) as Hitems.
    { apply NoDup_fmap_2_strong; [|done].
      intros x y _ _ Hxy. by apply joinpath_inj in Hxy. }
    destruct (show_hidden self); [done|]. by apply NoDup_filter. }
  eapply sublist_NoDup; [|apply sublist_take].
  unfold sort_items. by rewrite sort_by_perm.
Qed.

(** X5.  Switching hidden entries on and off again gives what reloading the
    directory gives. *)
Theorem toggle_hidden_twice (self : FileList) :
  toggle_hidden fs (toggle_hidden fs self)
  = load_directory fs self (current_path self).
Proof.
  unfold toggle_hidden; simpl. rewrite negb_involutive.
  by apply load_directory_ext.
Qed.

Lemma move_selection_bound (self : FileList) (delta : Z) :
  files self <> [] ->
  files (move_selection self delta) = files self
  /\ current_path (move_selection self delta) = current_path self
  /\ show_hidden (move_selection self delta) = show_hidden self
  /\ selected_idx (move_selection self delta) < length (files self).
Proof.
  intros Hne. unfold move_selection.
  rewrite bool_decide_eq_false_2 by done. simpl.
  repeat split. destruct (files self); [done|simpl; lia].
Qed.

(** X6.  On a listing that is not empty, [move_selection] leaves the selection
    on an entry of the listing: it moves by [delta] when that stays within
    the listing, and stops at the first or at the last entry otherwise. *)
Theorem move_selection_in_range (self : FileList) (delta : Z) :
  files self <> [] ->
  files (move_selection self delta) = files self
  /\ selected_idx (move_selection self delta) < length (files self)
  /\ ((Z.of_nat (selected_idx self) + delta < 0)%Z ->
      selected_idx (move_selection self delta) = 0)
  /\ ((0 <= Z.of_nat (selected_idx self) + delta < Z.of_nat (length (files self)))%Z ->
      Z.of_nat (selected_idx (move_selection self delta))
      = (Z.of_nat (selected_idx self) + delta)%Z)
  /\ ((Z.of_nat (length (files self)) <= Z.of_nat (selected_idx self) + delta)%Z ->
      selected_idx (move_selection self delta) = length (files self) - 1).
Proof.
  intros Hne. unfold move_selection.
  rewrite bool_decide_eq_false_2 by done. simpl.
  assert (0 < length (files self)) as Hlen.
  { destruct (files self); [done|simpl; lia]. }
  repeat split; intros; lia.
Qed.

(** On an empty listing [move_selection] does nothing. *)
Lemma move_selection_empty (self : FileList) (delta : Z) :
  files self = [] -> move_selection self delta = self.
Proof.
  intros He. unfold move_selection. by rewrite bool_decide_eq_true_2.
Qed.

End ListingMore.

(** ** What holds in every state of the application *)

Section Reachable.
Variables (fs : FileSystem) (home : Path).

Lemma run_commands_invariant (P : FileExplorer -> Prop)
    (self : FileExplorer) (cmds : list Command) :
  P self ->
  (forall s cmd, P s -> P (dispatch fs home s cmd)) ->
  P (run_commands fs home self cmds).
Proof.
  intros Hinit Hstep. revert self Hinit.
  induction cmds as [|cmd cmds IH]; intros self Hinit; [done|].
  apply IH, Hstep, Hinit.
Qed.

(** [apply_filter] only touches the listing, and in it neither the path
    nor the hidden switch. *)
Lemma apply_filter_frame (self : FileExplorer) (filter_text : string) :
  exists fl : FileList,
    apply_filter fs self filter_text = set_file_list fl self
    /\ current_path fl = current_path (file_list self)
    /\ show_hidden fl = show_hidden (file_list self).
Proof.
  unfold apply_filter.
  destruct (String.eqb _ _); [by eexists|].
  destruct (iterdir fs _); [|destruct (sort_listing fs _); [|by eexists]];
    exists (file_list self); by destruct self.
Qed.

Lemma do_search_frame (self : FileExplorer) (query : string) :
  exists panel : SearchPanel.t,
    do_search fs self query = set_search_panel panel self.
Proof.
  unfold do_search. destruct (search_active self); simpl; [by eexists|].
  exists (search_panel self). by destruct self.
Qed.

Lemma timer_fires_frame (self : FileExplorer) :
  exists (panel : SearchPanel.t) (pending : list string),
    timer_fires fs self = set_search_panel panel (set_timers pending self).
Proof.
  unfold timer_fires. destruct (timers self) as [|value pending] eqn:Hts.
  - exists (search_panel self), []. destruct self; simpl in *. by subst.
  - destruct (do_search_frame (set_timers pending self) value) as [panel ->].
    by exists panel, pending.
Qed.

Lemma on_input_changed_frame (self : FileExplorer) (value : string) :
  exists (fl : FileList) (pending : list string),
    on_input_changed fs self value = set_file_list fl (set_timers pending self)
    /\ current_path fl = current_path (file_list self)
    /\ show_hidden fl = show_hidden (file_list self).
Proof.
  unfold on_input_changed.
  destruct (search_active self && _).
  - exists (file_list self), (timers self ++ [value]). by destruct self.
  - destruct (filter_active self).
    + destruct (apply_filter_frame self value) as (fl & -> & Hp & Hh).
      exists fl, (timers self). by destruct self.
    + exists (file_list self), (timers self). by destruct self.
Qed.

(** The two modes after a command: as before, or the ones a mode switch
    sets. *)
Lemma dispatch_modes (s : FileExplorer) (cmd : Command) :
  let s' := dispatch fs home s cmd in
  (search_active s' = search_active s /\ filter_active s' = filter_active s)
  \/ (search_active s' = false /\ filter_active s' = false)
  \/ (search_active s' = true /\ filter_active s' = false)
  \/ (search_active s' = false /\ filter_active s' = true).
Proof.
  destruct cmd as [[value| | | | | | |]| | | | |]; simpl.
  - destruct (on_input_changed_frame s value) as (fl & pending & -> & _).
    by left.
  - destruct (timer_fires_frame s) as (panel & pending & ->). by left.
  - unfold action_enter. repeat case_match; by left.
  - unfold action_back. repeat case_match; simpl; auto.
  - auto.
  - auto 6.
  - auto.
  - unfold action_toggle_hidden. repeat case_match; by left.
  - unfold action_down. repeat case_match; by left.
  - unfold action_up. repeat case_match; by left.
  - unfold action_top. repeat case_match; by left.
  - unfold action_bottom. repeat case_match; by left.
  - unfold action_go_home. repeat case_match; by left.
Qed.

(** X8.  Search mode and filter mode are never active together. *)
Theorem modes_exclusive (cwd : Path) (cmds : list Command) :
  ~ (search_active (run_commands fs home (on_mount fs cwd) cmds) = true
     /\ filter_active (run_commands fs home (on_mount fs cwd) cmds) = true).
Proof.
  apply (run_commands_invariant
    (fun s => ~ (search_active s = true /\ filter_active s = true))).
  - simpl. by intros [? ?].
  - intros s cmd Hs.
    destruct (dispatch_modes s cmd) as [[-> ->]|[[-> ->]|[[-> ->]|[-> ->]]]];
      [done|by intros [? ?]..].
Qed.

(** The listing after a command: the one before, possibly with another
    selection that is on an entry or 0; or one made by [load_directory];
    or one made by [apply_filter] from a fresh read of the same
    directory. *)
Lemma dispatch_listing (s : FileExplorer) (cmd : Command) :
  let fl := file_list s in
  let fl' := file_list (dispatch fs home s cmd) in
  fl' = fl
  \/ (files fl' = files fl /\ current_path fl' = current_path fl
      /\ show_hidden fl' = show_hidden fl
      /\ (selected_idx fl' < length (files fl') \/ selected_idx fl' = 0))
  \/ (exists self0 path, fl' = load_directory fs self0 path)
  \/ (exists items filter_lower,
        iterdir fs (current_path fl) = inr items
        /\ fl' = {| current_path := current_path fl;
                    files := take listing_cap
                      (sort_items fs
                         (filter (fun i => filter_predicate filter_lower i) items));
                    selected_idx := 0;
                    show_hidden := show_hidden fl |}).
Proof.
  assert (forall value,
    file_list (apply_filter fs s value) = file_list s
    \/ (exists self0 path, file_list (apply_filter fs s value)
                           = load_directory fs self0 path)
    \/ (exists items filter_lower,
          iterdir fs (current_path (file_list s)) = inr items
          /\ file_list (apply_filter fs s value)
             = {| current_path := current_path (file_list s);
                  files := take listing_cap
                    (sort_items fs
                       (filter (fun i => filter_predicate filter_lower i) items));
                  selected_idx := 0;
                  show_hidden := show_hidden (file_list s) |})) as Hfilter.
  { intros value. unfold apply_filter.
    destruct (String.eqb _ _); [right; left; by eexists _, _|].
    destruct (iterdir fs _) as [e|items] eqn:Hread; [by left|].
    unfold sort_listing. destruct (probe_error fs _); [by left|].
    right; right. by exists items, (PyStr.strip (PyStr.lower value)). }
  destruct cmd as [[value| | | | | | |]| | | | |]; simpl.
  - unfold on_input_changed. destruct (search_active s && _); [by left|].
    destruct (filter_active s); [|by left].
    destruct (Hfilter value) as [->|[H|H]]; auto.
  - destruct (timer_fires_frame s) as (panel & pending & ->). by left.
  - unfold action_enter. repeat case_match; simpl; eauto 6.
  - unfold action_back, action_normal_mode.
    repeat case_match; simpl; eauto 6.
  - by left.
  - by left.
  - eauto 6.
  - unfold action_toggle_hidden, toggle_hidden.
    repeat case_match; simpl; eauto 6.
  - unfold action_down. destruct (search_active s); [by left|]. simpl.
    destruct (decide (files (file_list s) = [])) as [He|Hne].
    + left. by apply move_selection_empty.
    + right; left.
      destruct (move_selection_bound (file_list s) 1 Hne)
        as (Hf & Hp & Hh & Hsel).
      rewrite Hf, Hp, Hh. auto.
  - unfold action_up. destruct (search_active s); [by left|]. simpl.
    destruct (decide (files (file_list s) = [])) as [He|Hne].
    + left. by apply move_selection_empty.
    + right; left.
      destruct (move_selection_bound (file_list s) (-1) Hne)
        as (Hf & Hp & Hh & Hsel).
      rewrite Hf, Hp, Hh. auto.
  - unfold action_top. destruct (search_active s); [by left|]. simpl.
    right; left. auto.
  - unfold action_bottom. destruct (search_active s); [by left|].
    case_bool_decide as Hfiles; [by left|]. simpl.
    right; left. repeat split; try done. left.
    destruct (files (file_list s)); [done|simpl; lia].
  - unfold action_go_home. repeat case_match; simpl; eauto 6.
Qed.

End Reachable.

Section ReachableStates.
Variables (fs : FileSystem) (home : Path).

Lemma selection_gives_entry (fl : FileList) :
  selected_idx fl < length (files fl) \/ selected_idx fl = 0 ->
  get_selected fl = None <-> files fl = [].
Proof.
  intros Hsel. unfold get_selected.
  destruct (files fl) as [|x l] eqn:Hfiles; simpl.
  - by destruct (selected_idx fl <? 0)%nat.
  - assert (selected_idx fl < S (length l)) as Hlt by (simpl in Hsel; lia).
    apply Nat.ltb_lt in Hlt as Hltb. rewrite Hltb.
    destruct (lookup_lt_is_Some_2 (x :: l) (selected_idx fl) Hlt) as [y ->].
    done.
Qed.

(** X7.  In every state the application reaches, the selection is on an entry
    of the listing whenever the listing has one: [get_selected] returns
    [None] only on an empty listing. *)
Theorem selection_always_valid (cwd : Path) (cmds : list Command) :
  get_selected (file_list (run_commands fs home (on_mount fs cwd) cmds)) = None
  <-> files (file_list (run_commands fs home (on_mount fs cwd) cmds)) = [].
Proof.
  apply selection_gives_entry.
  apply (run_commands_invariant fs home
    (fun s => selected_idx (file_list s) < length (files (file_list s))
              \/ selected_idx (file_list s) = 0)).
  - by right.
  - intros s cmd Hs.
    destruct (dispatch_listing fs home s cmd)
      as [->|[(_ & _ & _ & H)|[(self0 & path & ->)|(items & t & _ & ->)]]];
      auto.
Qed.

Lemma load_directory_listing_ok (self0 : FileList) (path : Path) :
  length (files (load_directory fs self0 path)) <= listing_cap
  /\ StronglySorted (item_le fs) (files (load_directory fs self0 path))
  /\ Forall (child_of fs (current_path (load_directory fs self0 path)))
       (files (load_directory fs self0 path)).
Proof.
  split; [rewrite load_directory_files, length_take; lia|].
  split; [apply load_directory_sorted|].
  rewrite load_directory_files. simpl.
  apply Forall_take. unfold sort_items. rewrite sort_by_perm.
  apply listed_children_Forall, visible_children_child_of.
Qed.

(** X9.  In every state the application reaches, with the filesystem
    unchanged, the entries on display are children of the current
    directory, at most 300 of them, directories first and each group in
    the order of the lowercased names (the key order of the sort). *)
Theorem listing_always_sorted_children (cwd : Path) (cmds : list Command) :
  length (files (file_list (run_commands fs home (on_mount fs cwd) cmds)))
    <= listing_cap
  /\ StronglySorted (item_le fs)
       (files (file_list (run_commands fs home (on_mount fs cwd) cmds)))
  /\ Forall
       (child_of fs
          (current_path (file_list (run_commands fs home (on_mount fs cwd) cmds))))
       (files (file_list (run_commands fs home (on_mount fs cwd) cmds))).
Proof.
  apply (run_commands_invariant fs home
    (fun s => length (files (file_list s)) <= listing_cap
              /\ StronglySorted (item_le fs) (files (file_list s))
              /\ Forall (child_of fs (current_path (file_list s)))
                   (files (file_list s)))).
  - apply load_directory_listing_ok.
  - intros s cmd Hs.
    destruct (dispatch_listing fs home s cmd)
      as [->|[(-> & -> & _)|[(self0 & path & ->)|(items & t & Hread & ->)]]];
      [done|done|apply load_directory_listing_ok|]. simpl.
    split; [rewrite length_take; lia|].
    split; [apply StronglySorted_take, sort_by_sorted|].
    apply Forall_take. unfold sort_items. rewrite sort_by_perm.
    apply iterdir_child_of in Hread.
    apply Forall_forall. intros i [_ Hi]%list_elem_of_filter.
    by apply (proj1 (Forall_forall _ _) Hread).
Qed.

(** X10.  Every command leaves the history and the current directory alone, or
    pushes the directory being left, or pops the directory gone back to:
    the history changes by one path at a time and going back always lands
    on the path pushed last. *)
Theorem history_changes_by_one (s : FileExplorer) (cmd : Command) :
  history_step s (dispatch fs home s cmd).
Proof.
  destruct cmd as [[value| | | | | | |]| | | | |]; simpl.
  - destruct (on_input_changed_frame fs s value) as (fl & pending & -> & Hp & _).
    by apply history_kept.
  - destruct (timer_fires_frame fs s) as (panel & pending & ->).
    by apply history_kept.
  - unfold action_enter. repeat case_match; try by apply history_kept.
    by apply history_pushed.
  - unfold action_back, action_normal_mode.
    destruct (search_active s || filter_active s); [by apply history_kept|].
    destruct (NavigationStack.is_empty (nav_stack s)); simpl;
      [by apply history_kept|].
    destruct (NavigationStack.pop (nav_stack s)) as [[prev|] stack'] eqn:Hpop;
      [|by apply history_kept].
    apply history_popped. simpl. by apply pop_inv.
  - by apply history_kept.
  - by apply history_kept.
  - by apply history_kept.
  - unfold action_toggle_hidden, toggle_hidden.
    repeat case_match; by apply history_kept.
  - unfold action_down. destruct (search_active s); [by apply history_kept|].
    apply history_kept; [done|]. simpl.
    unfold move_selection. by case_bool_decide.
  - unfold action_up. destruct (search_active s); [by apply history_kept|].
    apply history_kept; [done|]. simpl.
    unfold move_selection. by case_bool_decide.
  - unfold action_top. repeat case_match; by apply history_kept.
  - unfold action_bottom. repeat case_match; by apply history_kept.
  - unfold action_go_home. repeat case_match; try by apply history_kept.
    by apply history_pushed.
Qed.

(** X11.  Only entering a directory, going back and going home change the
    history or the current directory: typing, filtering, searching,
    switching modes, toggling hidden entries and moving the selection
    leave both as they are. *)
Theorem only_navigation_changes_history (s : FileExplorer) (cmd : Command) :
  cmd <> OfEvent KeyEnter -> cmd <> OfEvent KeyBack -> cmd <> KeyHome ->
  nav_stack (dispatch fs home s cmd) = nav_stack s
  /\ current_path (file_list (dispatch fs home s cmd))
     = current_path (file_list s).
Proof.
  intros Henter Hback Hhome.
  destruct cmd as [[value| | | | | | |]| | | | |]; simpl; try done.
  - by destruct (on_input_changed_frame fs s value) as (fl & pending & -> & Hp & _).
  - by destruct (timer_fires_frame fs s) as (panel & pending & ->).
  - unfold action_toggle_hidden, toggle_hidden. by repeat case_match.
  - unfold action_down, move_selection. by repeat case_match.
  - unfold action_up, move_selection. by repeat case_match.
  - unfold action_top. by repeat case_match.
  - unfold action_bottom. by repeat case_match.
Qed.

(** Going back in search mode or filter mode leaves that mode and does
    not pop the history. *)
Lemma action_back_in_mode (s : FileExplorer) :
  search_active s || filter_active s = true ->
  action_back fs s = action_normal_mode fs s.
Proof. unfold action_back. by intros ->. Qed.

(** X12.  Entering the selected directory and going back returns to the
    directory left: the history is as before and the directory is listed
    anew, whatever the directory entered was. *)
Theorem enter_then_back (s : FileExplorer) (d : Path) :
  search_active s = false ->
  filter_active s = false ->
  get_selected (file_list s) = Some d ->
  fs_is_dir fs d = true ->
  action_back fs (action_enter fs s)
  = set_file_list (load_directory fs (file_list s) (current_path (file_list s))) s.
Proof.
  intros Hs Hf Hsel Hdir.
  unfold action_enter. rewrite Hs, Hsel, Hdir.
  unfold action_back; simpl. rewrite Hs, Hf; simpl.
  rewrite push_not_empty, pop_push; simpl.
  destruct s; simpl in *. unfold set_file_list, set_nav_stack; simpl.
  f_equal.
Qed.

(** What does not navigate: going back with an empty history outside the
    two modes, and entering when the selection is a file or there is
    none, change nothing. *)
Lemma navigation_no_ops (s : FileExplorer) :
  (search_active s = false -> filter_active s = false ->
   nav_stack s = [] -> action_back fs s = s)
  /\ (forall f, get_selected (file_list s) = Some f -> fs_is_dir fs f = false ->
      action_enter fs s = s)
  /\ (get_selected (file_list s) = None -> action_enter fs s = s).
Proof.
  split; [|split].
  - intros Hs Hf Hnav. unfold action_back. by rewrite Hs, Hf, Hnav.
  - intros f Hsel Hfile. unfold action_enter. rewrite Hsel, Hfile.
    by destruct (search_active s).
  - intros Hsel. unfold action_enter. rewrite Hsel.
    by destruct (search_active s).
Qed.

End ReachableStates.

(** ** More on filtering *)

Section FilteringMore.
Variable fs : FileSystem.

(** What a filter keeps, for a text that is not blank, a directory that
    can be read and children that pass on which [is_dir] does not
    raise. *)
Lemma apply_filter_members (self : FileExplorer) (filter_text : string)
    (items : list Path) :
  PyStr.strip (PyStr.lower filter_text) <> "" ->
  iterdir fs (current_path (file_list self)) = inr items ->
  probe_error fs
    (filter (fun i => filter_predicate (PyStr.strip (PyStr.lower filter_text)) i)
       items) = None ->
  (forall i, i ∈ files (file_list (apply_filter fs self filter_text)) ->
     i ∈ items
     /\ filter_predicate (PyStr.strip (PyStr.lower filter_text)) i = true)
  /\ (length (filter
                (fun i => filter_predicate (PyStr.strip (PyStr.lower filter_text)) i)
                items) <= listing_cap ->
      forall i, i ∈ items ->
        filter_predicate (PyStr.strip (PyStr.lower filter_text)) i = true ->
        i ∈ files (file_list (apply_filter fs self filter_text))).
Proof.
  intros Hne Hread Hprobe.
  rewrite (apply_filter_files fs self filter_text items Hne Hread Hprobe).
  unfold sort_items. rewrite filter_sort_by. split.
  - intros i Hi. eapply elem_of_sublist in Hi; [|apply sublist_take].
    rewrite sort_by_perm in Hi.
    apply list_elem_of_filter in Hi as [Hp Hi]. split; [done|].
    by apply Is_true_true.
  - intros Hlen i Hi Hp.
    rewrite take_ge by (by rewrite sort_by_length).
    rewrite sort_by_perm. apply list_elem_of_filter. split; [|done].
    by apply Is_true_true.
Qed.

Lemma dotted_not_category (t : string) :
  PyStr.startswith "." t = true -> type_filters !! t = None.
Proof.
  intros Hdot. destruct (type_filters !! t) as [exts|] eqn:Hkw; [|done].
  assert (t ∈ category_keywords) as Hin.
  { apply category_keywords_table. by eexists. }
  unfold category_keywords in Hin. rewrite !elem_of_cons, elem_of_nil in Hin.
  destruct Hin as [->|[->|[->|[->|[->|[->|[->|[->|[]]]]]]]]]; done.
Qed.

(** X13.  A filter text that starts with a dot is an extension filter: when
    the directory can be read and no [is_dir] of the sort raises on a
    child with that suffix, it keeps the children whose lowercased suffix
    is the lowercased text, the whole of it, and no others; all of them
    when there are at most 300. *)
Theorem extension_filter_exact (self : FileExplorer) (filter_text : string)
    (items : list Path) :
  PyStr.startswith "." (PyStr.strip (PyStr.lower filter_text)) = true ->
  iterdir fs (current_path (file_list self)) = inr items ->
  probe_error fs
    (filter (fun i => PyStr.lower (suffix i) = PyStr.strip (PyStr.lower filter_text))
       items) = None ->
  (forall i, i ∈ files (file_list (apply_filter fs self filter_text)) ->
     i ∈ items
     /\ PyStr.lower (suffix i) = PyStr.strip (PyStr.lower filter_text))
  /\ (length (filter
                (fun i => PyStr.lower (suffix i) = PyStr.strip (PyStr.lower filter_text))
                items) <= listing_cap ->
      forall i, i ∈ items ->
        PyStr.lower (suffix i) = PyStr.strip (PyStr.lower filter_text) ->
        i ∈ files (file_list (apply_filter fs self filter_text))).
Proof.
  intros Hdot Hread Hprobe.
  set (t := PyStr.strip (PyStr.lower filter_text)) in *.
  assert (t <> "") as Hne by (by intros Ht; rewrite Ht in Hdot).
  assert (forall i, filter_predicate t i = true <-> PyStr.lower (suffix i) = t)
    as Hpred.
  { intros i. unfold filter_predicate.
    rewrite (dotted_not_category t Hdot), Hdot. apply String.eqb_eq. }
  assert (filter (fun i => filter_predicate t i) items
          = filter (fun i => PyStr.lower (suffix i) = t) items) as Hsame.
  { apply list_filter_iff. intros x. rewrite Is_true_true. apply Hpred. }
  rewrite <- Hsame in Hprobe.
  destruct (apply_filter_members self filter_text items Hne Hread Hprobe)
    as [Hin Hall].
  fold t in Hin, Hall. split.
  - intros i Hi. destruct (Hin i Hi) as [? ?]. split; [done|]. by apply Hpred.
  - intros Hlen i Hi Hext. apply Hall; [|done|by apply Hpred].
    erewrite list_filter_iff; [exact Hlen|].
    intros x. rewrite Is_true_true. apply Hpred.
Qed.

(** X14.  Any other text that is not one of the keys of the table is a name
    filter: when the directory can be read and no [is_dir] of the sort
    raises on a child with such a name, it keeps the children whose
    lowercased name contains the lowercased text, and no others; all of
    them when there are at most 300. *)
Theorem name_filter_substring (self : FileExplorer) (filter_text : string)
    (items : list Path) :
  PyStr.strip (PyStr.lower filter_text) <> "" ->
  PyStr.strip (PyStr.lower filter_text) ∉ category_keywords ->
  PyStr.startswith "." (PyStr.strip (PyStr.lower filter_text)) = false ->
  iterdir fs (current_path (file_list self)) = inr items ->
  probe_error fs
    (filter (fun i => PyStr.contains (PyStr.strip (PyStr.lower filter_text))
                        (PyStr.lower (name i)))
       items) = None ->
  (forall i, i ∈ files (file_list (apply_filter fs self filter_text)) ->
     i ∈ items
     /\ PyStr.contains (PyStr.strip (PyStr.lower filter_text))
          (PyStr.lower (name i)) = true)
  /\ (length (filter
                (fun i => PyStr.contains (PyStr.strip (PyStr.lower filter_text))
                            (PyStr.lower (name i)))
                items) <= listing_cap ->
      forall i, i ∈ items ->
        PyStr.contains (PyStr.strip (PyStr.lower filter_text))
          (PyStr.lower (name i)) = true ->
        i ∈ files (file_list (apply_filter fs self filter_text))).
Proof.
  intros Hne Hkey Hdot Hread Hprobe.
  set (t := PyStr.strip (PyStr.lower filter_text)) in *.
  assert (type_filters !! t = None) as Hnone.
  { destruct (type_filters !! t) as [exts|] eqn:Hkw; [|done].
    exfalso. apply Hkey, category_keywords_table. by eexists. }
  assert (forall i, filter_predicate t i = PyStr.contains t (PyStr.lower (name i)))
    as Hpred.
  { intros i. unfold filter_predicate. by rewrite Hnone, Hdot. }
  assert (filter (fun i => filter_predicate t i) items
          = filter (fun i => PyStr.contains t (PyStr.lower (name i))) items)
    as Hsame.
  { apply list_filter_iff. intros x. by rewrite Hpred. }
  rewrite <- Hsame in Hprobe.
  destruct (apply_filter_members self filter_text items Hne Hread Hprobe)
    as [Hin Hall].
  fold t in Hin, Hall. split.
  - intros i Hi. destruct (Hin i Hi) as [? ?]. split; [done|].
    by rewrite <- Hpred.
  - intros Hlen i Hi Hsub. apply Hall; [|done|by rewrite Hpred].
    erewrite list_filter_iff; [exact Hlen|].
    intros x. by rewrite Hpred.
Qed.

End FilteringMore.

(** ** More on debounced searches *)

Section DebounceMore.
Variable fs : FileSystem.

(** X15.  Leaving search mode cancels no timer, but outside search mode a timer
    that fires runs no search and publishes nothing: it is consumed and
    the application is otherwise unchanged. *)
Theorem timers_silent_outside_search_mode (self : FileExplorer) (n : nat) :
  search_active self = false ->
  run fs self (replicate n TimerElapsed) = set_timers (drop n (timers self)) self.
Proof.
  revert self. induction n as [|n IH]; intros self Hs.
  - simpl. rewrite drop_0. by destruct self.
  - simpl replicate. rewrite run_cons. simpl handle. unfold timer_fires.
    destruct (timers self) as [|q pending] eqn:Hts.
    + rewrite IH by done. rewrite Hts, !drop_nil. done.
    + rewrite do_search_inactive by done.
      rewrite IH by done. simpl. done.
Qed.

End DebounceMore.

(** ** More on the breadth-first search *)

Section SearchMore.
Variables (fs : FileSystem) (query : string).

Lemma expanded_items_children (current : Path) :
  Forall (fun i => fs_is_dir fs current = true /\ child_of fs current i)
    (expanded_items fs current).
Proof.
  unfold expanded_items. destruct (fs_is_dir fs current); [|done].
  destruct (iterdir fs current) as [e|items] eqn:Hread; [done|].
  apply iterdir_child_of in Hread.
  eapply Forall_impl; [exact Hread|]. by intros i Hi.
Qed.

Lemma child_of_joinpath (d item : Path) :
  child_of fs d item -> exists n : string, item = joinpath d n.
Proof. intros (names & n & _ & _ & ->). by exists n. Qed.

Lemma child_of_depth (d item : Path) :
  child_of fs d item -> length item = S (length d).
Proof.
  intros [n ->]%child_of_joinpath. unfold joinpath.
  rewrite length_app. simpl. lia.
Qed.

Lemma bfs_while_sound (root : Path) (result_limit dir_limit fuel : nat)
    (queue : SearchQueue.t) (res : list Path) (seen : gset Path) (reads : nat)
    (st : SearchState) :
  let Q := fun r => matches query r = true
                    /\ exists d : Path,
                         descendant root d /\ fs_is_dir fs d = true
                         /\ child_of fs d r in
  bfs_while fs query result_limit dir_limit fuel queue res seen reads = Some st ->
  Forall (descendant root) queue -> Forall Q res -> Forall Q (results st).
Proof.
  intros Q. revert fuel queue res seen reads st.
  apply (bfs_while_ind fs query result_limit dir_limit
    (fun queue res seen reads st =>
      Forall (descendant root) queue -> Forall Q res -> Forall Q (results st)));
    try done.
  - intros current rest res seen reads st _ _ IH Hq Hr.
    apply Forall_cons in Hq as [_ Hq]. by apply IH.
  - intros current rest res seen reads st _ _ st' IH Hq Hr.
    apply Forall_cons in Hq as [Hcur Hq].
    destruct (expand_scan fs query current
      {| search_queue := rest; results := res;
         visited := {[current]} ∪ seen; dir_reads := reads |})
      as (Hq' & Hr' & _).
    fold st' in Hq', Hr'. simpl in Hq', Hr'.
    pose proof (expanded_items_children current) as Hitems.
    apply IH.
    + rewrite Hq'. apply Forall_app. split; [done|].
      apply Forall_forall. intros i [n ->]%enqueued_items_joinpath.
      by apply strict_descendant_descendant, child_strict_descendant.
    + rewrite Hr'. apply Forall_app. split; [done|].
      apply Forall_forall.
      intros i [Hm Hi%scanned_items_listed]%list_elem_of_filter.
      apply (proj1 (Forall_forall _ _) Hitems) in Hi as [Hdir Hi].
      split; [by apply Is_true_true|]. by exists current.
Qed.

(** X16.  Every path the search returns matches the query and is listed in a
    readable directory that is the root or lies below it. *)
Theorem bfs_search_sound (root : Path) (max_results : nat) :
  Forall (fun r => matches query r = true
                   /\ exists d : Path,
                        descendant root d /\ fs_is_dir fs d = true
                        /\ child_of fs d r)
    (bfs_search fs root query max_results).
Proof.
  unfold bfs_search.
  destruct (bfs_run fs root query max_results) as [st|] eqn:Hrun; [|done].
  apply (bfs_while_sound root) in Hrun; [done| |done].
  apply Forall_singleton. exists []. by rewrite app_nil_r.
Qed.

Lemma all_same_depth_sorted (d : nat) (l : list Path) :
  Forall (fun i => length i = d) l -> StronglySorted depth_le l.
Proof.
  induction 1 as [|x l Hx Hl IH]; constructor; [done|].
  eapply Forall_impl; [exact Hl|]. intros y Hy. unfold depth_le.
  simpl in Hy. lia.
Qed.

Lemma breadth_first_skip (current : Path) (rest res : list Path) :
  breadth_first (current :: rest) res -> breadth_first rest res.
Proof.
  intros (Hq & Hr & Hspan & Hres). split; [|split; [done|split]].
  - by apply StronglySorted_inv in Hq as [? _].
  - intros q q' Hin Hin'. apply Hspan; by apply list_elem_of_further.
  - intros r q Hin Hin'. apply Hres; [done|by apply list_elem_of_further].
Qed.

Lemma breadth_first_expand (current : Path) (rest res newq newr : list Path) :
  Forall (fun i => length i = S (length current)) newq ->
  Forall (fun i => length i = S (length current)) newr ->
  breadth_first (current :: rest) res ->
  breadth_first (rest ++ newq) (res ++ newr).
Proof.
  intros Hnewq Hnewr (Hq & Hr & Hspan & Hres).
  apply StronglySorted_inv in Hq as [Hq Hhead].
  rewrite Forall_forall in Hhead, Hnewq, Hnewr.
  assert (forall q, q ∈ rest -> length current <= length q) as Hlow.
  { intros q Hin. by apply Hhead. }
  assert (forall q, q ∈ rest -> length q <= S (length current)) as Hhigh.
  { intros q Hin. apply Hspan; [apply list_elem_of_here|by apply list_elem_of_further]. }
  assert (forall r, r ∈ res -> length r <= S (length current)) as Hrhigh.
  { intros r Hin. apply Hres; [done|apply list_elem_of_here]. }
  split; [|split; [|split]].
  - apply StronglySorted_app_2; [|done|by eapply all_same_depth_sorted, Forall_forall].
    intros x1 x2 H1 H2. unfold depth_le. rewrite (Hnewq x2 H2). by apply Hhigh.
  - apply StronglySorted_app_2; [|done|by eapply all_same_depth_sorted, Forall_forall].
    intros x1 x2 H1 H2. unfold depth_le. rewrite (Hnewr x2 H2). by apply Hrhigh.
  - intros q q' [Hin|Hin]%elem_of_app [Hin'|Hin']%elem_of_app.
    + apply Hspan; by apply list_elem_of_further.
    + rewrite (Hnewq q' Hin'). apply le_n_S. by apply Hlow.
    + rewrite (Hnewq q Hin). etrans; [by apply Hhigh|]. lia.
    + rewrite (Hnewq q Hin), (Hnewq q' Hin'). lia.
  - intros r q [Hin|Hin]%elem_of_app [Hin'|Hin']%elem_of_app.
    + apply Hres; [done|by apply list_elem_of_further].
    + rewrite (Hnewq q Hin'). etrans; [by apply Hrhigh|]. lia.
    + rewrite (Hnewr r Hin). apply le_n_S. by apply Hlow.
    + rewrite (Hnewr r Hin), (Hnewq q Hin'). lia.
Qed.

Lemma bfs_while_breadth_first (result_limit dir_limit fuel : nat)
    (queue : SearchQueue.t) (res : list Path) (seen : gset Path) (reads : nat)
    (st : SearchState) :
  bfs_while fs query result_limit dir_limit fuel queue res seen reads = Some st ->
  breadth_first queue res ->
  StronglySorted depth_le (results st).
Proof.
  revert fuel queue res seen reads st.
  apply (bfs_while_ind fs query result_limit dir_limit
    (fun queue res seen reads st =>
      breadth_first queue res -> StronglySorted depth_le (results st))).
  - by intros res seen reads (_ & Hr & _).
  - by intros current rest res seen reads _ (_ & Hr & _).
  - intros current rest res seen reads st _ _ IH Hbf.
    by apply IH, (breadth_first_skip current).
  - intros current rest res seen reads st _ _ st' IH Hbf.
    destruct (expand_scan fs query current
      {| search_queue := rest; results := res;
         visited := {[current]} ∪ seen; dir_reads := reads |})
      as (Hq' & Hr' & _).
    fold st' in Hq', Hr'. simpl in Hq', Hr'.
    apply IH. rewrite Hq', Hr'.
    pose proof (expanded_items_children current) as Hitems.
    apply (breadth_first_expand current); [| |done]; apply Forall_forall.
    + intros i Hi%enqueued_items_listed.
      apply (proj1 (Forall_forall _ _) Hitems) in Hi as [_ Hi].
      by apply child_of_depth.
    + intros i [_ Hi%scanned_items_listed]%list_elem_of_filter.
      apply (proj1 (Forall_forall _ _) Hitems) in Hi as [_ Hi].
      by apply child_of_depth.
Qed.

(** X17.  The results come in breadth-first order: a path is never returned
    after a path that lies deeper in the tree. *)
Theorem bfs_search_by_depth (root : Path) (max_results : nat) :
  StronglySorted depth_le (bfs_search fs root query max_results).
Proof.
  unfold bfs_search.
  destruct (bfs_run fs root query max_results) as [st|] eqn:Hrun;
    [|constructor].
  apply bfs_while_breadth_first in Hrun; [done|].
  unfold SearchQueue.enqueue, SearchQueue.empty; simpl.
  split; [repeat constructor|]. split; [constructor|].
  split.
  - intros q q' ->%list_elem_of_singleton ->%list_elem_of_singleton. lia.
  - intros r q Hr. by apply elem_of_nil in Hr.
Qed.

Lemma bfs_while_overshoot (result_limit dir_limit fuel : nat)
    (queue : SearchQueue.t) (res : list Path) (seen : gset Path) (reads : nat)
    (st : SearchState) :
  bfs_while fs query result_limit dir_limit fuel queue res seen reads = Some st ->
  (res = [] \/ exists before d,
     res = before ++ filter (fun i => matches query i) (scanned_items fs d)
     /\ length before < result_limit) ->
  results st = []
  \/ exists before d,
       results st = before ++ filter (fun i => matches query i) (scanned_items fs d)
       /\ length before < result_limit.
Proof.
  revert fuel queue res seen reads st.
  apply (bfs_while_ind fs query result_limit dir_limit
    (fun queue res seen reads st =>
      (res = [] \/ exists before d,
         res = before ++ filter (fun i => matches query i) (scanned_items fs d)
         /\ length before < result_limit) ->
      results st = []
      \/ exists before d,
           results st = before ++ filter (fun i => matches query i) (scanned_items fs d)
           /\ length before < result_limit)); try done.
  intros current rest res seen reads st Hlim _ st' IH _.
  destruct (expand_scan fs query current
    {| search_queue := rest; results := res;
       visited := {[current]} ∪ seen; dir_reads := reads |}) as (_ & Hr' & _).
  fold st' in Hr'. simpl in Hr'.
  apply IH. right. exists res, current. split; [done|].
  unfold within_limits in Hlim.
  by apply andb_true_iff in Hlim as [Hlim%Nat.ltb_lt _].
Qed.

(** X18.  The results go past [max_results] only by the matching children the
    scan of one directory got to, the last one read: without them they
    are fewer than [max_results].  The scan of a directory gets to the
    children up to the first whose [is_dir] raises, a prefix of its
    listing. *)
Theorem bfs_search_overshoot (root : Path) (max_results : nat) :
  (bfs_search fs root query max_results = []
   \/ exists (before : list Path) (d : Path),
        bfs_search fs root query max_results
          = before ++ filter (fun i => matches query i) (scanned_items fs d)
        /\ length before < max_results)
  /\ forall d : Path,
       scanned_items fs d `prefix_of` expanded_items fs d
       /\ (probe_error fs (expanded_items fs d) = None ->
           scanned_items fs d = expanded_items fs d).
Proof.
  split.
  - unfold bfs_search.
    destruct (bfs_run fs root query max_results) as [st|] eqn:Hrun; [|by left].
    apply bfs_while_overshoot in Hrun; [done|by left].
  - intros d. split; [apply scanned_prefix|apply scanned_all].
Qed.

End SearchMore.

(** ** What the search finds *)

Section SearchComplete.
Variables (fs : FileSystem) (query : string).

Lemma expanded_items_readable (current : Path) (names : list string) :
  fs_is_dir fs current = true ->
  fs_listdir fs current = inr names ->
  expanded_items fs current = map (joinpath current) names.
Proof.
  intros Hdir Hread. unfold expanded_items, iterdir. by rewrite Hdir, Hread.
Qed.

(** Where no [is_dir] raises on the children of a readable directory the
    search can reach, it can reach every directory listed there. *)
Lemma search_reaches_listed (root d c : Path) :
  search_reaches fs root d -> fs_is_dir fs d = true ->
  probe_error fs (expanded_items fs d) = None ->
  child_of fs d c -> fs_is_dir fs c = true ->
  search_reaches fs root c.
Proof.
  intros Hd Hdir Hprobe (names & n & Hread & Hn & ->) Hc.
  apply (reaches_child fs root d); [done|].
  unfold enqueued_items. rewrite (enqueued_all fs _ Hprobe).
  apply list_elem_of_filter. split; [by apply Is_true_true|].
  rewrite (expanded_items_readable d names Hdir Hread).
  by apply list_elem_of_fmap_2.
Qed.

(** X19.  When the search stops with an empty queue, it has visited every path
    it can reach from the root, and it has returned every matching entry
    the scan of one of them gets to: every matching entry listed in a
    readable directory among them on whose children no [is_dir] raises. *)
Theorem bfs_search_complete (root : Path) (max_results : nat) (st : SearchState) :
  bfs_run fs root query max_results = Some st ->
  search_queue st = [] ->
  (forall d, search_reaches fs root d -> d ∈ visited st)
  /\ (forall d item,
        search_reaches fs root d -> item ∈ scanned_items fs d ->
        matches query item = true ->
        item ∈ bfs_search fs root query max_results)
  /\ (forall d item,
        search_reaches fs root d -> fs_is_dir fs d = true ->
        probe_error fs (expanded_items fs d) = None ->
        child_of fs d item -> matches query item = true ->
        item ∈ bfs_search fs root query max_results).
Proof.
  intros Hrun Hempty.
  assert (bfs_search fs root query max_results = results st) as ->.
  { unfold bfs_search. by rewrite Hrun. }
  destruct (bfs_run_exhaustive fs root query max_results st Hrun Hempty)
    as [Hall Hres].
  split; [done|]. split.
  - intros d item Hd. by apply Hres, Hall.
  - intros d item Hd Hdir Hprobe (names & n & Hread & Hn & ->) Hm.
    apply (Hres d); [by apply Hall| |done].
    unfold scanned_items. rewrite (scanned_all fs _ Hprobe).
    rewrite (expanded_items_readable d names Hdir Hread).
    by apply list_elem_of_fmap_2.
Qed.

Lemma expanded_items_distinct (current : Path) :
  (forall p names, fs_listdir fs p = inr names -> NoDup names) ->
  NoDup (expanded_items fs current).
Proof.
  intros Hnames. unfold expanded_items, iterdir.
  destruct (fs_is_dir fs current); [|constructor].
  destruct (fs_listdir fs current) as [e|names] eqn:Hread; [constructor|].
  apply NoDup_fmap_2_strong; [|by apply (Hnames current)].
  intros x y _ _ Hxy. by apply joinpath_inj in Hxy.
Qed.

Lemma bfs_while_distinct (result_limit dir_limit fuel : nat)
    (queue : SearchQueue.t) (res : list Path) (seen : gset Path) (reads : nat)
    (st : SearchState) :
  (forall p names, fs_listdir fs p = inr names -> NoDup names) ->
  bfs_while fs query result_limit dir_limit fuel queue res seen reads = Some st ->
  results_distinct res seen ->
  results_distinct (results st) (visited st).
Proof.
  intros Hnames. revert fuel queue res seen reads st.
  apply (bfs_while_ind fs query result_limit dir_limit
    (fun queue res seen reads st =>
      results_distinct res seen -> results_distinct (results st) (visited st)));
    try done.
  intros current rest res seen reads st _ Hnew st' IH [Hnodup Hparents].
  destruct (expand_scan fs query current
    {| search_queue := rest; results := res;
       visited := {[current]} ∪ seen; dir_reads := reads |}) as (_ & Hr' & _).
  fold st' in Hr'. simpl in Hr'.
  apply IH. subst st'. rewrite Hr', expand_visited. simpl.
  split.
  - apply NoDup_app. split; [done|]. split.
    + intros x Hx [_ Hin]%list_elem_of_filter.
      destruct (Hparents x Hx) as (d & n & Hd & ->).
      apply scanned_items_joinpath in Hin as [n' Heq].
      unfold joinpath in Heq. apply app_inj_tail in Heq as [-> _]. done.
    + apply NoDup_filter.
      eapply sublist_NoDup; [|apply scanned_sublist].
      by apply expanded_items_distinct.
  - intros r [Hr|[_ Hr]%list_elem_of_filter]%elem_of_app.
    + destruct (Hparents r Hr) as (d & n & Hd & ->).
      exists d, n. split; [|done]. apply elem_of_union. by right.
    + apply scanned_items_joinpath in Hr as [n ->].
      exists current, n. split; [|done].
      apply elem_of_union. left. by apply elem_of_singleton.
Qed.

(** X20.  The names of every directory being distinct, no path is returned
    twice. *)
Theorem bfs_search_no_duplicates (root : Path) (max_results : nat) :
  (forall p names, fs_listdir fs p = inr names -> NoDup names) ->
  NoDup (bfs_search fs root query max_results).
Proof.
  intros Hnames. unfold bfs_search.
  destruct (bfs_run fs root query max_results) as [st|] eqn:Hrun;
    [|constructor].
  apply (bfs_while_distinct _ _ _ _ _ _ _ _ Hnames) in Hrun as [Hnodup _];
    [done|].
  split; [constructor|]. intros r Hr. by apply elem_of_nil in Hr.
Qed.

Lemma bfs_while_nothing (root : Path) (result_limit dir_limit fuel : nat) :
  result_limit = 0
  \/ Forall (fun i => fs_is_dir fs i = false /\ matches query i = false)
       (expanded_items fs root) ->
  exists st : SearchState,
    bfs_while fs query result_limit dir_limit (S fuel) [root] [] ∅ 0 = Some st
    /\ results st = [].
Proof.
  intros Hcase. rewrite bfs_while_cons.
  destruct (within_limits result_limit dir_limit [] ∅) eqn:Hlim;
    [|by eexists].
  case_decide as Hin; [by apply elem_of_empty in Hin|].
  destruct Hcase as [->|Hnone]; [done|].
  assert (enqueued_items fs root = []
          /\ filter (fun i => matches query i) (scanned_items fs root) = [])
    as [Hq0 Hr0].
  { unfold enqueued_items, scanned_items.
    induction Hnone as [|i l [Hd Hm] _ [IH1 IH2]]; [done|]. simpl.
    unfold fs_is_dir in Hd.
    destruct (fs_probe fs i) as [e|[|]]; [|done|];
      by rewrite filter_cons, Hm, ?IH1, ?IH2, ?filter_nil. }
  destruct (expand_scan fs query root
    {| search_queue := []; results := [];
       visited := {[root]} ∪ ∅; dir_reads := 0 |}) as (Hq & Hr & _).
  simpl in Hq, Hr.
  rewrite Hq0 in Hq. rewrite Hr0 in Hr.
  cbv zeta. rewrite Hq, Hr, bfs_while_nil. by eexists.
Qed.

(** X21.  The search returns nothing when [max_results] is 0, and when the root
    is not a directory, cannot be read, or holds neither a directory nor a
    matching entry. *)
Theorem bfs_search_nothing (root : Path) (max_results : nat) :
  max_results = 0
  \/ Forall (fun i => fs_is_dir fs i = false /\ matches query i = false)
       (expanded_items fs root) ->
  bfs_search fs root query max_results = [].
Proof.
  intros Hcase. unfold bfs_search, bfs_run.
  change (SearchQueue.enqueue root SearchQueue.empty) with [root].
  change max_dirs with (S 299) at 2.
  by destruct (bfs_while_nothing root max_results max_dirs 299 Hcase)
    as (st & -> & ->).
Qed.

End SearchComplete.

(** ** Tree nodes *)

Section TreeNodes.
Import TreeNode.

Lemma add_child_lookup (self child r : nat) (h : store) :
  add_child self child h !! r
  = (if decide (child = r) then set_parent self else id)
      <$> ((if decide (self = r) then append_child child else id) <$> h !! r).
Proof.
  unfold add_child, store in *. rewrite !lookup_alter.
  repeat case_decide; subst; simpl; try done; by destruct (h !! _).
Qed.

(** X22.  After [self.add_child(child)] the child is the last of the children
    of [self] and [self] is its parent, also when both are the same node;
    paths and the expanded flags are kept and no other node changes. *)
Theorem add_child_links (self child : nat) (h : store) (ns nc : t) :
  h !! self = Some ns ->
  h !! child = Some nc ->
  exists ns' nc' : t,
    add_child self child h !! self = Some ns'
    /\ add_child self child h !! child = Some nc'
    /\ children ns' = children ns ++ [child]
    /\ parent nc' = Some self
    /\ path ns' = path ns /\ path nc' = path nc
    /\ is_expanded ns' = is_expanded ns /\ is_expanded nc' = is_expanded nc
    /\ forall r, r <> self -> r <> child -> add_child self child h !! r = h !! r.
Proof.
  intros Hself Hchild.
  exists ((if decide (child = self) then set_parent self else id)
            (append_child child ns)),
         (set_parent self
            ((if decide (self = child) then append_child child else id) nc)).
  rewrite !add_child_lookup, Hself, Hchild.
  rewrite (decide_True (P := self = self)) by done.
  rewrite (decide_True (P := child = child)) by done.
  simpl. split; [done|]. split; [done|].
  split; [by destruct (decide (child = self))|].
  split; [done|].
  split; [by destruct (decide (child = self))|].
  split; [by destruct (decide (self = child))|].
  split; [by destruct (decide (child = self))|].
  split; [by destruct (decide (self = child))|].
  intros r Hs Hc. rewrite add_child_lookup.
  rewrite decide_False, decide_False by done.
  by destruct (h !! r).
Qed.

(** X23.  [add_child] keeps the tree well linked, provided the child is not
    already listed among the children of another node: it does not remove
    the child from a former parent. *)
Theorem add_child_well_linked (self child : nat) (h : store) (ns nc : t) :
  well_linked h ->
  h !! self = Some ns ->
  h !! child = Some nc ->
  (forall p np, h !! p = Some np -> child ∈ children np -> p = self) ->
  well_linked (add_child self child h).
Proof.
  intros Hwl Hself Hchild Hfresh p c np' Hp Hc.
  rewrite add_child_lookup in Hp.
  destruct (h !! p) as [np|] eqn:Hhp; [|by destruct (decide (self = p))].
  assert (c ∈ children np \/ (p = self /\ c = child)) as Hcases.
  { simpl in Hp.
    destruct (decide (child = p)), (decide (self = p));
      simpl in Hp; simplify_eq; simpl in Hc; auto;
      apply elem_of_app in Hc as [?|Hc]; auto;
      apply list_elem_of_singleton in Hc; auto. }
  rewrite add_child_lookup.
  destruct Hcases as [Hold|[-> ->]].
  - destruct (Hwl p c np Hhp Hold) as (nc0 & Hhc & Hpar).
    rewrite Hhc. simpl.
    destruct (decide (child = c)) as [->|Hne].
    + assert (p = self) as -> by eauto.
      eexists. split; [done|]. by destruct (decide (self = c)).
    + eexists. split; [done|]. by destruct (decide (self = c)).
  - rewrite Hchild. simpl.
    rewrite (decide_True (P := child = child)) by done.
    eexists. split; [done|]. by destruct (decide (self = child)).
Qed.

End TreeNodes.

(** ** More runs on concrete filesystems *)

Section RunsMore.
Import Examples.

Lemma load_directory_no_duplicates_witness :
  fs_listdir fs_mixed root = inr ["photo.PNG"; "notes.txt"; "clip.mp4"]
  /\ NoDup ["photo.PNG"; "notes.txt"; "clip.mp4"]
  /\ NoDup (files (load_directory fs_mixed (file_list (on_mount fs_mixed root)) root)).
Proof.
  assert (fs_listdir fs_mixed root = inr ["photo.PNG"; "notes.txt"; "clip.mp4"])
    as Hread by reflexivity.
  assert (NoDup ["photo.PNG"; "notes.txt"; "clip.mp4"]) as Hnames by compute_done.
  exact (conj Hread (conj Hnames
    (load_directory_no_duplicates fs_mixed _ root _ Hread Hnames))).
Defined.

Lemma move_selection_in_range_witness :
  files (file_list (on_mount fs_mixed root)) <> []
  /\ selected_idx (move_selection (file_list (on_mount fs_mixed root)) 5) = 2
  /\ selected_idx (move_selection (file_list (on_mount fs_mixed root)) (-1)) = 0.
Proof.
  assert (files (file_list (on_mount fs_mixed root)) <> []) as Hne by compute_done.
  destruct (move_selection_in_range (file_list (on_mount fs_mixed root)) 5 Hne)
    as (_ & _ & _ & _ & Hlast).
  destruct (move_selection_in_range (file_list (on_mount fs_mixed root)) (-1) Hne)
    as (_ & _ & Hfirst & _).
  split; [exact Hne|]. split.
  - rewrite Hlast; [reflexivity|]. vm_compute. discriminate.
  - apply Hfirst. reflexivity.
Defined.

Lemma only_navigation_changes_history_witness :
  KeyDown <> OfEvent KeyEnter
  /\ nav_stack (dispatch fs_search root (on_mount fs_search root) KeyDown) = []
  /\ current_path (file_list (dispatch fs_search root (on_mount fs_search root) KeyDown))
     = root.
Proof.
  assert (KeyDown <> OfEvent KeyEnter) as H1 by discriminate.
  assert (KeyDown <> OfEvent KeyBack) as H2 by discriminate.
  assert (KeyDown <> KeyHome) as H3 by discriminate.
  split; [exact H1|].
  exact (only_navigation_changes_history fs_search root
           (on_mount fs_search root) KeyDown H1 H2 H3).
Defined.

Lemma enter_then_back_witness :
  get_selected (file_list (on_mount fs_search root)) = Some (joinpath root "a")
  /\ current_path (file_list (action_enter fs_search (on_mount fs_search root)))
     = joinpath root "a"
  /\ action_back fs_search (action_enter fs_search (on_mount fs_search root))
     = on_mount fs_search root.
Proof.
  assert (get_selected (file_list (on_mount fs_search root))
          = Some (joinpath root "a")) as Hsel by reflexivity.
  split; [exact Hsel|]. split; [reflexivity|].
  etrans.
  - exact (enter_then_back fs_search (on_mount fs_search root) (joinpath root "a")
             eq_refl eq_refl Hsel eq_refl).
  - reflexivity.
Defined.

Lemma extension_filter_exact_witness :
  PyStr.startswith "." (PyStr.strip (PyStr.lower ".TXT")) = true
  /\ (joinpath root "notes.txt"
        ∈ files (file_list (apply_filter fs_mixed (on_mount fs_mixed root) ".TXT")))
  /\ (forall i,
        i ∈ files (file_list (apply_filter fs_mixed (on_mount fs_mixed root) ".TXT")) ->
        PyStr.lower (suffix i) = ".txt").
Proof.
  assert (PyStr.startswith "." (PyStr.strip (PyStr.lower ".TXT")) = true)
    as Hdot by reflexivity.
  assert (iterdir fs_mixed (current_path (file_list (on_mount fs_mixed root)))
          = inr (map (joinpath root) ["photo.PNG"; "notes.txt"; "clip.mp4"]))
    as Hread by reflexivity.
  assert (probe_error fs_mixed
            (filter (fun i => PyStr.lower (suffix i) = PyStr.strip (PyStr.lower ".TXT"))
               (map (joinpath root) ["photo.PNG"; "notes.txt"; "clip.mp4"])) = None)
    as Hprobe by (vm_compute; reflexivity).
  destruct (extension_filter_exact fs_mixed (on_mount fs_mixed root) ".TXT" _
              Hdot Hread Hprobe) as [Honly Hall].
  split; [exact Hdot|]. split.
  - apply Hall; [vm_compute; lia|compute_done|reflexivity].
  - intros i Hi. exact (proj2 (Honly i Hi)).
Defined.

Lemma name_filter_substring_witness :
  (PyStr.strip (PyStr.lower "Document") ∉ category_keywords)
  /\ (joinpath root "document_list.xyz"
        ∈ files (file_list
                   (apply_filter fs_documents (on_mount fs_documents root) "Document")))
  /\ (forall i,
        i ∈ files (file_list
                     (apply_filter fs_documents (on_mount fs_documents root) "Document")) ->
        PyStr.contains "document" (PyStr.lower (name i)) = true).
Proof.
  assert (PyStr.strip (PyStr.lower "Document") <> "") as Hne by discriminate.
  assert (PyStr.strip (PyStr.lower "Document") ∉ category_keywords)
    as Hkey by compute_done.
  assert (iterdir fs_documents (current_path (file_list (on_mount fs_documents root)))
          = inr (map (joinpath root) ["report.pdf"; "document_list.xyz"]))
    as Hread by reflexivity.
  assert (probe_error fs_documents
            (filter (fun i => PyStr.contains (PyStr.strip (PyStr.lower "Document"))
                                (PyStr.lower (name i)))
               (map (joinpath root) ["report.pdf"; "document_list.xyz"])) = None)
    as Hprobe by (vm_compute; reflexivity).
  destruct (name_filter_substring fs_documents (on_mount fs_documents root)
              "Document" _ Hne Hkey eq_refl Hread Hprobe) as [Honly Hall].
  split; [exact Hkey|]. split.
  - apply Hall; [vm_compute; lia|compute_done|reflexivity].
  - intros i Hi. exact (proj2 (Honly i Hi)).
Defined.

Lemma timers_silent_outside_search_mode_witness :
  timers (action_normal_mode fs_search (run fs_search searching [InputChanged "ta"]))
    = ["ta"]
  /\ run fs_search
       (action_normal_mode fs_search (run fs_search searching [InputChanged "ta"]))
       (replicate 1 TimerElapsed)
     = on_mount fs_search root.
Proof.
  split; [reflexivity|].
  etrans.
  - exact (timers_silent_outside_search_mode fs_search
             (action_normal_mode fs_search
                (run fs_search searching [InputChanged "ta"])) 1 eq_refl).
  - reflexivity.
Defined.

Lemma bfs_search_complete_witness :
  (search_queue <$> bfs_run fs_search root "target" default_max_results) = Some []
  /\ search_reaches fs_search root (joinpath root "a")
  /\ joinpath (joinpath root "a") "target.txt"
       ∈ bfs_search fs_search root "target" default_max_results.
Proof.
  assert ((search_queue <$> bfs_run fs_search root "target" default_max_results)
          = Some []) as Hqueue by (vm_compute; reflexivity).
  assert (search_reaches fs_search root (joinpath root "a")) as Hreach.
  { apply (reaches_child fs_search root root); [apply reaches_root|].
    compute_done. }
  split; [exact Hqueue|]. split; [exact Hreach|].
  destruct (bfs_run fs_search root "target" default_max_results) as [st|] eqn:Hrun;
    [|discriminate Hqueue].
  injection Hqueue as Hempty.
  destruct (bfs_search_complete fs_search "target" root default_max_results st
              Hrun Hempty) as (_ & Hfound & _).
  apply (Hfound (joinpath root "a")); [exact Hreach| |reflexivity].
  compute_done.
Defined.

Lemma fs_search_names_distinct (p : Path) (names : list string) :
  fs_listdir fs_search p = inr names -> NoDup names.
Proof.
  unfold fs_search, mkfs; simpl.
  repeat case_decide; intros Hnames; simplify_eq; compute_done.
Defined.

Lemma bfs_search_no_duplicates_witness :
  (forall p names, fs_listdir fs_search p = inr names -> NoDup names)
  /\ NoDup (bfs_search fs_search root "" default_max_results).
Proof.
  exact (conj fs_search_names_distinct
    (bfs_search_no_duplicates fs_search "" root default_max_results
       fs_search_names_distinct)).
Defined.

Lemma bfs_search_nothing_witness :
  bfs_search fs_search root "target" 0 = []
  /\ expanded_items fs_search (joinpath root "b") = []
  /\ bfs_search fs_search (joinpath root "b") "target" default_max_results = [].
Proof.
  split.
  - exact (bfs_search_nothing fs_search "target" root 0 (or_introl eq_refl)).
  - split; [reflexivity|].
    apply (bfs_search_nothing fs_search "target"). right.
    change (expanded_items fs_search (joinpath root "b")) with (@nil Path).
    constructor.
Defined.

Lemma two_fresh_nodes_lookup :
  TreeNode.init 1 ["r"; "a"] None (TreeNode.init 0 ["r"] None ∅) !! 0
    = Some {| TreeNode.path := ["r"]; TreeNode.parent := None;
              TreeNode.children := []; TreeNode.is_expanded := false |}
  /\ TreeNode.init 1 ["r"; "a"] None (TreeNode.init 0 ["r"] None ∅) !! 1
     = Some {| TreeNode.path := ["r"; "a"]; TreeNode.parent := None;
               TreeNode.children := []; TreeNode.is_expanded := false |}.
Proof.
  unfold TreeNode.init, TreeNode.store. split.
  - rewrite lookup_insert_ne by done. apply lookup_insert_eq.
  - apply lookup_insert_eq.
Defined.

Lemma add_child_links_witness :
  exists ns' nc' : TreeNode.t,
    TreeNode.add_child 0 1
      (TreeNode.init 1 ["r"; "a"] None (TreeNode.init 0 ["r"] None ∅)) !! 0 = Some ns'
    /\ TreeNode.add_child 0 1
         (TreeNode.init 1 ["r"; "a"] None (TreeNode.init 0 ["r"] None ∅)) !! 1 = Some nc'
    /\ TreeNode.children ns' = [1]
    /\ TreeNode.parent nc' = Some 0.
Proof.
  destruct two_fresh_nodes_lookup as [Hself Hchild].
  destruct (add_child_links 0 1
              (TreeNode.init 1 ["r"; "a"] None (TreeNode.init 0 ["r"] None ∅))
              _ _ Hself Hchild)
    as (ns' & nc' & H0 & H1 & Hch & Hpar & _).
  exists ns', nc'. split; [exact H0|]. split; [exact H1|].
  split; [exact Hch|exact Hpar].
Defined.

Lemma two_fresh_nodes_well_linked :
  well_linked (TreeNode.init 1 ["r"; "a"] None (TreeNode.init 0 ["r"] None ∅)).
Proof.
  intros p c np Hp Hc. unfold TreeNode.init, TreeNode.store in Hp.
  rewrite lookup_insert in Hp. case_decide.
  - simplify_eq. by apply elem_of_nil in Hc.
  - rewrite lookup_insert in Hp. case_decide; [|by rewrite lookup_empty in Hp].
    simplify_eq. by apply elem_of_nil in Hc.
Defined.

Lemma add_child_well_linked_witness :
  well_linked (TreeNode.init 1 ["r"; "a"] None (TreeNode.init 0 ["r"] None ∅))
  /\ well_linked
       (TreeNode.add_child 0 1
          (TreeNode.init 1 ["r"; "a"] None (TreeNode.init 0 ["r"] None ∅))).
Proof.
  split; [exact two_fresh_nodes_well_linked|].
  destruct two_fresh_nodes_lookup as [Hself Hchild].
  apply (add_child_well_linked 0 1 _ _ _ two_fresh_nodes_well_linked Hself Hchild).
  intros p np Hp Hc. exfalso. revert Hp Hc.
  unfold TreeNode.init, TreeNode.store.
  rewrite lookup_insert. case_decide.
  - intros ? Hc. simplify_eq. by apply elem_of_nil in Hc.
  - rewrite lookup_insert. case_decide; [|by rewrite lookup_empty].
    intros ? Hc. simplify_eq. by apply elem_of_nil in Hc.
Defined.

(** An [is_dir] that raises in the sort of [apply_filter] leaves the
    listing on display as it is, though none of its entries passes the
    filter. *)
Example filter_abandoned_by_failing_probe :
  apply_filter fs_secret (on_mount fs_secret root) "secret" = on_mount fs_secret root
  /\ files (file_list (apply_filter fs_secret (on_mount fs_secret root) "secret"))
     = [joinpath root "a.txt"]
  /\ filter_predicate "secret" (joinpath root "a.txt") = false
  /\ files (file_list (apply_filter fs_secret (on_mount fs_secret root) "txt"))
     = [joinpath root "a.txt"].
Proof. split; [|split; [|split]]; reflexivity. Qed.

(** An [is_dir] that raises in the scan of a directory ends the scan: the
    search on [fs_partial] stops with an empty queue, having found [t1]
    in [d] but not [t2], which is listed after [x]. *)
Example search_scan_abandoned_by_failing_probe :
  (search_queue <$> bfs_run fs_partial root "t" default_max_results) = Some []
  /\ bfs_search fs_partial root "t" default_max_results
     = [joinpath root "t3"; joinpath (joinpath root "d") "t1"]
  /\ expanded_items fs_partial (joinpath root "d")
     = map (joinpath (joinpath root "d")) ["t1"; "x"; "t2"]
  /\ scanned_items fs_partial (joinpath root "d")
     = map (joinpath (joinpath root "d")) ["t1"; "x"]
  /\ matches "t" (joinpath (joinpath root "d") "t2") = true.
Proof.
  split; [vm_compute; reflexivity|]. split; [vm_compute; reflexivity|].
  split; [reflexivity|]. split; reflexivity.
Qed.

(** The spec's example of the history: three pushes, then four pops. *)
Example navigation_stack_three :
  pops 4 (foldl (fun s p => NavigationStack.push p s) NavigationStack.empty
            [["p1"]; ["p2"]; ["p3"]])
  = ([Some ["p3"]; Some ["p2"]; Some ["p1"]; None], []).
Proof. reflexivity. Qed.

End RunsMore.
